(** * Financial Insight front end: the view-model layer, embedded and verified

    The development follows the React components of the client:
    - [JS]: the fragment of the JavaScript string and object semantics that
      the components rely on ([toLowerCase], [includes], [indexOf],
      [substring], [trim], [replace] with the two regular expressions used,
      the [||] operator on possibly missing strings, stable [sort]);
    - [ClauseExtraction]: [processedData] of ClauseExtraction.jsx;
    - [AnalysisCharts]: [entityData] and [riskData] of AnalysisCharts.jsx;
    - [NERAnalysis]: [processedData] of NERAnalysis.jsx;
    - [SentimentAnalysis]: [processedData] of SentimentAnalysis.jsx;
    - [Viewer]: [sortedClauses], the auto-play effect and
      [renderHighlightedText] of InteractiveClauseViewer.jsx;
    - [Chatbot]: [handleSendMessage] and [handleClearChat] of Chatbot.jsx.

    Strings are sequences of code units; the model covers the code units
    0..255 (Latin-1), where [toLowerCase] acts on each code unit on its own.
    A field that may be absent is an [option], [None] standing for
    [undefined]. An object used as a map is the list of its own entries in
    insertion order; a lookup under a name that an object literal inherits
    from [Object.prototype] is not covered, and the statements that depend on
    such lookups say so ([Reference.own_name]). *)

From Stdlib Require Import String Ascii List ZArith Lia Bool PeanoNat Permutation.
From Stdlib Require Import Sorted.
From Stdlib Require PrimFloat.
Import ListNotations.
Open Scope string_scope.

(* ===================================================================== *)
(** ** JavaScript strings and values *)
(* ===================================================================== *)

Module JS.

(** Code unit classes. *)
Definition code (c : ascii) : nat := nat_of_ascii c.

Definition between (lo hi : nat) (c : ascii) : bool :=
  (lo <=? code c)%nat && (code c <=? hi)%nat.

(** [\w] of a regular expression without the [u] and [i] flags. *)
Definition is_word (c : ascii) : bool :=
  between 65 90 c || between 97 122 c || between 48 57 c || (code c =? 95)%nat.

(** [String.prototype.toLowerCase] on one Latin-1 code unit: A-Z and the
    accented capitals U+00C0..U+00DE (the multiplication sign U+00D7 apart). *)
Definition lower_char (c : ascii) : ascii :=
  if between 65 90 c || (between 192 222 c && negb (code c =? 215)%nat)
  then ascii_of_nat (code c + 32) else c.

(** [toUpperCase] of a one-character string matched by [\w]. *)
Definition upper_word_char (c : ascii) : ascii :=
  if between 97 122 c then ascii_of_nat (code c - 32) else c.

Fixpoint map_chars (f : ascii -> ascii) (s : string) : string :=
  match s with
  | EmptyString => EmptyString
  | String c s' => String (f c) (map_chars f s')
  end.

Definition toLowerCase (s : string) : string := map_chars lower_char s.

(** [s.replace(/_/g, ' ')]. *)
Definition underscore_to_space (c : ascii) : ascii :=
  if (code c =? 95)%nat then " "%char else c.

Definition replace_underscores (s : string) : string :=
  map_chars underscore_to_space s.

(** [s.replace(/\b\w/g, l => l.toUpperCase())]: a word character is matched
    when the character before it is not a word character (or it is the first
    one); [prev] tells whether the previous character was a word character. *)
Fixpoint capitalize_from (prev : bool) (s : string) : string :=
  match s with
  | EmptyString => EmptyString
  | String c s' =>
      String (if is_word c && negb prev then upper_word_char c else c)
             (capitalize_from (is_word c) s')
  end.

Definition capitalize_words (s : string) : string := capitalize_from false s.

(** [s.indexOf(search, position)]: the position is clamped to [0, length],
    the result is -1 when there is no occurrence at or after it. *)
Definition clamp (len : nat) (i : Z) : nat := Nat.min (Z.to_nat i) len.

Definition indexOfFrom (s search : string) (position : Z) : Z :=
  match index (clamp (String.length s) position) search s with
  | Some k => Z.of_nat k
  | None => (-1)%Z
  end.

Definition indexOf (s search : string) : Z := indexOfFrom s search 0.

(** [s.includes(search)]. *)
Definition includes (s search : string) : bool :=
  negb (indexOf s search =? -1)%Z.

(** [s.substring(start, end)]: both indices are clamped, and swapped when
    [start > end]; [s.substring(start)] is [s.substring(start, s.length)]. *)
Definition substring2 (s : string) (i j : Z) : string :=
  let a := clamp (String.length s) i in
  let b := clamp (String.length s) j in
  substring (Nat.min a b) (Nat.max a b - Nat.min a b) s.

(** White space and line terminators of [trim] among the Latin-1 code units. *)
Definition is_space (c : ascii) : bool :=
  between 9 13 c || (code c =? 32)%nat || (code c =? 160)%nat.

Fixpoint trimStart (s : string) : string :=
  match s with
  | EmptyString => EmptyString
  | String c s' => if is_space c then trimStart s' else s
  end.

Fixpoint trimEnd (s : string) : string :=
  match s with
  | EmptyString => EmptyString
  | String c s' =>
      match trimEnd s' with
      | EmptyString => if is_space c then EmptyString else String c EmptyString
      | t => String c t
      end
  end.

Definition trim (s : string) : string := trimEnd (trimStart s).

(** Truthiness of a possibly missing string, and the [||] operator. *)
Definition truthy (v : option string) : bool :=
  match v with
  | Some (String _ _) => true
  | _ => false
  end.

Definition or_else (v w : option string) : option string :=
  if truthy v then v else w.

Definition or_default (v : option string) (d : string) : string :=
  match v with
  | Some (String c s) => String c s
  | _ => d
  end.

(** Property lookup in an object kept as its list of entries. *)
Fixpoint get {V : Type} (o : list (string * V)) (k : string) : option V :=
  match o with
  | [] => None
  | (k', v) :: o' => if (k' =? k)%string then Some v else get o' k
  end.

(** The property key of [o[v]] for a possibly missing string [v]: a missing
    one reads as the key "undefined". *)
Definition property_key (v : option string) : string :=
  match v with
  | Some s => s
  | None => "undefined"
  end.

(** Assignment [o[k] = v]: an existing property keeps its place, a new one
    is added last. *)
Fixpoint set {V : Type} (o : list (string * V)) (k : string) (v : V)
  : list (string * V) :=
  match o with
  | [] => [(k, v)]
  | (k', v') :: o' =>
      if (k' =? k)%string then (k', v) :: o' else (k', v') :: set o' k v
  end.

(** Array indices among property keys: the canonical decimal numerals below
    2^32 - 1. [Object.keys] lists them first, in ascending numeric order, and
    then the other keys in insertion order. *)
Definition is_digit (c : ascii) : bool := between 48 57 c.

Fixpoint all_digits (s : string) : bool :=
  match s with
  | EmptyString => true
  | String c s' => is_digit c && all_digits s'
  end.

Fixpoint decimal_value (acc : N) (s : string) : N :=
  match s with
  | EmptyString => acc
  | String c s' => decimal_value (acc * 10 + N.of_nat (code c - 48)) s'
  end.

Definition array_index (k : string) : option N :=
  match k with
  | EmptyString => None
  | String c rest =>
      if all_digits k
         && implb (code c =? 48)%nat (rest =? "")%string
         && (decimal_value 0 k <? 4294967295)%N
      then Some (decimal_value 0 k) else None
  end.

Fixpoint insert_index (x : N * string) (l : list (N * string)) : list (N * string) :=
  match l with
  | [] => [x]
  | y :: l' => if (fst y <? fst x)%N then y :: insert_index x l' else x :: y :: l'
  end.

Definition keys {V : Type} (o : list (string * V)) : list string :=
  let ks := map fst o in
  let indexed :=
    flat_map (fun k => match array_index k with
                       | Some n => [(n, k)]
                       | None => []
                       end) ks in
  (map snd (fold_right insert_index [] indexed)
   ++ filter (fun k => match array_index k with Some _ => false | None => true end) ks)%list.

Definition values {V : Type} (o : list (string * V)) : list V :=
  flat_map (fun k => match get o k with Some v => [v] | None => [] end) (keys o).

(** [Array.prototype.sort(cmp)]: the sort is stable, and an element goes
    before another when the comparator is negative. *)
Section Sort.
Context {A : Type} (cmp : A -> A -> Z).

Fixpoint insert_sorted (x : A) (l : list A) : list A :=
  match l with
  | [] => [x]
  | y :: l' =>
      if (cmp y x <? 0)%Z then y :: insert_sorted x l' else x :: y :: l'
  end.

Definition sort (l : list A) : list A := fold_right insert_sorted [] l.

End Sort.

(** [arr.slice(0, n)]. *)
Definition slice0 {A : Type} (n : nat) (l : list A) : list A := firstn n l.

End JS.

(* ===================================================================== *)
(** ** ClauseExtraction.jsx *)
(* ===================================================================== *)

(** One entry of an extraction list, as the back end sends it. *)
Record extraction := {
  e_extraction_class : option string;
  e_type : option string;
  e_class : option string;
  e_extraction_text : option string;
  e_text : option string;
  e_attributes : option (list (string * string))
}.

Record json_output_t := { jo_text : option string }.

Record modelResult := {
  extractions : option (list extraction);
  json_output : option json_output_t
}.

Record nested_langextract := { nl_clauses : option (list extraction) }.

(** The clause payload handed to the component. [results] lists the values
    of the object in the order [Object.values] enumerates them. *)
Record clause_payload := {
  p_text : option string;
  p_results : option (list (string * modelResult));
  p_clauses : option (list extraction);
  p_langextract : option nested_langextract
}.

Inductive importance := high | medium | low.

Record Clause := {
  c_type : string;
  c_text : string;
  c_importance : importance;
  c_confidence : string;
  c_attributes : list (string * string)
}.

Module ClauseExtraction.
Import JS.

Record processed := {
  clauses : list Clause;
  totalClauses : nat;
  text : string
}.

(** The callback of [clauses.map]. *)
Definition mapClause (ext : extraction) : Clause :=
  let type :=
    capitalize_words (replace_underscores
      (or_default (or_else (or_else (e_extraction_class ext) (e_type ext))
                           (e_class ext)) "General Clause")) in
  let typeLower := toLowerCase type in
  let importance :=
    if includes typeLower "liability" || includes typeLower "termination"
       || includes typeLower "indemnity" || includes typeLower "payment"
       || includes typeLower "dispute"
    then high
    else if includes typeLower "confidentiality" || includes typeLower "warranty"
            || includes typeLower "governing" || includes typeLower "interest"
    then medium
    else low in
  {| c_type := type;
     c_text := or_default (or_else (e_extraction_text ext) (e_text ext))
                          "No text available";
     c_importance := importance;
     c_confidence :=
       or_default (match e_attributes ext with
                   | Some a => get a "confidence"
                   | None => None
                   end) "medium";
     c_attributes := match e_attributes ext with Some a => a | None => [] end |}.

(** The callback of [clauses.filter]. *)
Definition validClause (c : Clause) : bool :=
  negb (c_text c =? "")%string
  && negb (toLowerCase (c_text c) =? "null")%string
  && negb (c_text c =? "No text available")%string
  && (5 <? String.length (c_text c))%nat.

(** The extraction list selected by the three-way branch. *)
Definition rawClauses (data : clause_payload) : list extraction :=
  match p_results data with
  | Some results =>
      fold_left
        (fun acc (m : string * modelResult) =>
           match extractions (snd m) with
           | Some ex => (acc ++ ex)%list
           | None => acc
           end)
        results []
  | None =>
      match p_clauses data with
      | Some cl => cl
      | None =>
          match p_langextract data with
          | Some le => match nl_clauses le with Some cl => cl | None => [] end
          | None => []
          end
      end
  end.

Definition fullText (data : clause_payload) : string :=
  let fullText := or_default (p_text data) "" in
  match p_results data with
  | Some results =>
      match fullText, results with
      | EmptyString, (_, firstResult) :: _ =>
          match json_output firstResult with
          | Some jo => or_default (jo_text jo) fullText
          | None => fullText
          end
      | _, _ => fullText
      end
  | None => fullText
  end.

Definition processedData (data : option clause_payload) : processed :=
  match data with
  | None => {| clauses := []; totalClauses := 0; text := "" |}
  | Some d =>
      match p_clauses d, p_results d, p_langextract d with
      | None, None, None => {| clauses := []; totalClauses := 0; text := "" |}
      | _, _, _ =>
          let cl := filter validClause (map mapClause (rawClauses d)) in
          {| clauses := cl; totalClauses := List.length cl; text := fullText d |}
      end
  end.

End ClauseExtraction.

(* ===================================================================== *)
(** ** The analysis bundle: NER and sentiment payloads *)
(* ===================================================================== *)

Record entity := {
  en_text : option string;
  en_label : option string;
  en_type : option string
}.

Record ner_payload := { ner_entities : option (list entity) }.

Record sentence_result := {
  sr_text : option string;
  sr_label : option string;
  sr_score : option PrimFloat.float
}.

Record statistics_t := {
  overall_sentiment : option string;
  average_scores : option (list (string * PrimFloat.float))
}.

Record sentiment_payload := {
  statistics : option statistics_t;
  sentence_results : option (list sentence_result)
}.

(** [analysisResults] of Results.jsx: the charts get the whole bundle, each
    tab one of its fields. *)
Record bundle := {
  ner : option ner_payload;
  finbert : option sentiment_payload;
  langextract : option clause_payload
}.

(* ===================================================================== *)
(** ** AnalysisCharts.jsx *)
(* ===================================================================== *)

Module AnalysisCharts.
Import JS.

Record entity_item := { name : string; value : nat }.

Record risk_item := { r_name : string; r_value : nat; r_color : string }.

Record riskLevels_t := { High : nat; Medium : nat; Low : nat }.

(** The callback of [data.ner.entities.forEach]. [counts] holds the own
    properties of the object literal; the lookup is the one of the source for
    a label that is a string and names no property inherited from
    [Object.prototype] (see [Reference.own_name]), and for a missing label,
    whose key is "undefined". *)
Definition count_entity (counts : list (string * nat)) (e : entity)
  : list (string * nat) :=
  let k := property_key (en_label e) in
  set counts k (match get counts k with Some n => n | None => 0 end + 1).

Definition entityData (data : bundle) : list entity_item :=
  match ner data with
  | None => []
  | Some n =>
      match ner_entities n with
      | None => []
      | Some es =>
          let counts := fold_left count_entity es [] in
          slice0 10
            (sort (fun a b => (Z.of_nat (value b) - Z.of_nat (value a))%Z)
               (map (fun key =>
                       {| name := key;
                          value := match get counts key with
                                   | Some n => n
                                   | None => 0
                                   end |})
                    (keys counts)))
      end
  end.

(** The callback of [data.langextract.clauses.forEach]. *)
Definition count_risk (riskLevels : riskLevels_t) (c : extraction) : riskLevels_t :=
  let type :=
    toLowerCase
      (or_default (or_else (or_else (e_extraction_class c) (e_type c))
                           (e_class c)) "General Clause") in
  if includes type "liability" || includes type "termination"
     || includes type "indemnity" || includes type "payment"
     || includes type "dispute"
  then {| High := High riskLevels + 1; Medium := Medium riskLevels;
          Low := Low riskLevels |}
  else if includes type "confidentiality" || includes type "warranty"
          || includes type "governing" || includes type "interest"
  then {| High := High riskLevels; Medium := Medium riskLevels + 1;
          Low := Low riskLevels |}
  else {| High := High riskLevels; Medium := Medium riskLevels;
          Low := Low riskLevels + 1 |}.

Definition riskData (data : bundle) : list risk_item :=
  match langextract data with
  | None => []
  | Some le =>
      match p_clauses le with
      | None => []
      | Some cl =>
          let riskLevels :=
            fold_left count_risk cl {| High := 0; Medium := 0; Low := 0 |} in
          let total :=
            fold_left Nat.add [High riskLevels; Medium riskLevels; Low riskLevels] 0 in
          if (total =? 0)%nat then []
          else
            filter (fun item => (0 <? r_value item)%nat)
              [ {| r_name := "High Risk"; r_value := High riskLevels;
                   r_color := "#ef4444" |};
                {| r_name := "Medium Risk"; r_value := Medium riskLevels;
                   r_color := "#f59e0b" |};
                {| r_name := "Low Risk"; r_value := Low riskLevels;
                   r_color := "#10b981" |} ]
      end
  end.

End AnalysisCharts.

(* ===================================================================== *)
(** ** NERAnalysis.jsx *)
(* ===================================================================== *)

Module NERAnalysis.
Import JS.

Record entityGroup := {
  type : string;
  color : string;
  count : nat;
  examples : list (option string)
}.

Record processed := {
  entities : list entityGroup;
  totalEntities : nat
}.

Definition colorMap : list (string * string) :=
  [ ("ORG", "bg-purple-100 dark:bg-purple-900/30 text-purple-600 dark:text-purple-400");
    ("COMPANY", "bg-purple-100 dark:bg-purple-900/30 text-purple-600 dark:text-purple-400");
    ("REVENUE", "bg-blue-100 dark:bg-blue-900/30 text-blue-600 dark:text-blue-400");
    ("STOCK_PRICE", "bg-cyan-100 dark:bg-cyan-900/30 text-cyan-600 dark:text-cyan-400");
    ("MARKET_CAP", "bg-green-100 dark:bg-green-900/30 text-green-600 dark:text-green-400");
    ("FINANCIAL_EVENT", "bg-pink-100 dark:bg-pink-900/30 text-pink-600 dark:text-pink-400");
    ("FINANCIAL_RATIO", "bg-orange-100 dark:bg-orange-900/30 text-orange-600 dark:text-orange-400");
    ("PERSON", "bg-indigo-100 dark:bg-indigo-900/30 text-indigo-600 dark:text-indigo-400");
    ("LOCATION", "bg-teal-100 dark:bg-teal-900/30 text-teal-600 dark:text-teal-400");
    ("GPE", "bg-teal-100 dark:bg-teal-900/30 text-teal-600 dark:text-teal-400");
    ("DATE", "bg-amber-100 dark:bg-amber-900/30 text-amber-600 dark:text-amber-400");
    ("MONEY", "bg-emerald-100 dark:bg-emerald-900/30 text-emerald-600 dark:text-emerald-400") ].

(** The callback of [data.entities.forEach]. [entityGroups] and [colorMap]
    hold the own properties of the two object literals: the lookups are those
    of the source for a key that names no property inherited from
    [Object.prototype] (see [Reference.own_name]); at an inherited name the
    source finds the inherited value and fails on its missing [examples]. *)
Definition group_entity (entityGroups : list (string * entityGroup)) (e : entity)
  : list (string * entityGroup) :=
  let type := or_default (or_else (en_label e) (en_type e)) "OTHER" in
  let g :=
    match get entityGroups type with
    | Some g => g
    | None =>
        {| type := type;
           color := or_default (get colorMap type)
                      "bg-gray-100 dark:bg-gray-900/30 text-gray-600 dark:text-gray-400";
           count := 0;
           examples := [] |}
    end in
  set entityGroups type
    {| type := NERAnalysis.type g;
       color := color g;
       count := count g + 1;
       examples := if (List.length (examples g) <? 10)%nat
                   then (examples g ++ [en_text e])%list else examples g |}.

Definition processedData (data : option ner_payload) : processed :=
  match data with
  | None => {| entities := []; totalEntities := 0 |}
  | Some d =>
      match ner_entities d with
      | None => {| entities := []; totalEntities := 0 |}
      | Some es =>
          {| entities := values (fold_left group_entity es []);
             totalEntities := List.length es |}
      end
  end.

End NERAnalysis.

(* ===================================================================== *)
(** ** SentimentAnalysis.jsx *)
(* ===================================================================== *)

Module SentimentAnalysis.
Import JS.

Record sentence_view := {
  text : option string;
  sentiment : string;
  score : PrimFloat.float
}.

Record processed := {
  overallSentiment : string;
  p_score : PrimFloat.float;
  confidence : PrimFloat.float;
  sentenceAnalysis : list sentence_view
}.

(** [x || 0] on a possibly missing number: 0, -0 and NaN are falsy. *)
Definition number_or_zero (x : option PrimFloat.float) : PrimFloat.float :=
  match x with
  | Some f => if PrimFloat.is_nan f || PrimFloat.is_zero f then PrimFloat.zero else f
  | None => PrimFloat.zero
  end.

(** The lookup [average_scores[overall_sentiment]] is the one of the source
    for an overall label that is a string and names no property inherited
    from [Object.prototype] (see [Reference.own_name]): there the score is a
    number of the payload or missing. *)
Definition processedData (data : option sentiment_payload) : processed :=
  let neutral :=
    {| overallSentiment := "neutral"; p_score := PrimFloat.zero;
       confidence := PrimFloat.zero; sentenceAnalysis := [] |} in
  match data with
  | None => neutral
  | Some d =>
      match statistics d, sentence_results d with
      | None, None => neutral
      | _, _ =>
          let sentences :=
            match sentence_results d with Some l => l | None => [] end in
          let mappedSentences :=
            map (fun s =>
                   {| text := sr_text s;
                      sentiment := toLowerCase (or_default (sr_label s) "neutral");
                      score := number_or_zero (sr_score s) |})
                sentences in
          let overallScore :=
            number_or_zero
              (match statistics d with
               | Some st =>
                   match average_scores st with
                   | Some scores =>
                       get scores (property_key (overall_sentiment st))
                   | None => None
                   end
               | None => None
               end) in
          {| overallSentiment :=
               toLowerCase
                 (or_default
                    (match statistics d with
                     | Some st => overall_sentiment st
                     | None => None
                     end) "neutral");
             p_score := overallScore;
             confidence := overallScore;
             sentenceAnalysis := mappedSentences |}
      end
  end.

End SentimentAnalysis.

(* ===================================================================== *)
(** ** InteractiveClauseViewer.jsx *)
(* ===================================================================== *)

Module Viewer.
Import JS.

(** The four [useState] cells of the component. *)
Record state := {
  activeClauseIndex : Z;
  isPlaying : bool;
  searchTerm : string;
  filterType : string
}.

Definition initial : state :=
  {| activeClauseIndex := -1; isPlaying := false; searchTerm := "";
     filterType := "all" |}.

Definition sortedClauses (text : string) (clauses : list Clause)
    (searchTerm filterType : string) : list Clause :=
  let processed :=
    sort (fun a b => (indexOf text (c_text a) - indexOf text (c_text b))%Z)
      (filter (fun c => negb (c_text c =? "")%string && includes text (c_text c))
              clauses) in
  let processed :=
    if negb (searchTerm =? "")%string
    then filter (fun c =>
                   includes (toLowerCase (c_text c)) (toLowerCase searchTerm)
                   || includes (toLowerCase (c_type c)) (toLowerCase searchTerm))
                processed
    else processed in
  let processed :=
    if negb (filterType =? "all")%string
    then filter (fun c => (c_type c =? filterType)%string) processed
    else processed in
  processed.

(** The list the component renders in a given state. *)
Definition shown (text : string) (clauses : list Clause) (st : state) : list Clause :=
  sortedClauses text clauses (searchTerm st) (filterType st).

(** State setters reachable from the controls. *)
Definition setActiveClauseIndex (i : Z) (st : state) : state :=
  {| activeClauseIndex := i; isPlaying := isPlaying st;
     searchTerm := searchTerm st; filterType := filterType st |}.

Definition setIsPlaying (b : bool) (st : state) : state :=
  {| activeClauseIndex := activeClauseIndex st; isPlaying := b;
     searchTerm := searchTerm st; filterType := filterType st |}.

Definition setSearchTerm (s : string) (st : state) : state :=
  {| activeClauseIndex := activeClauseIndex st; isPlaying := isPlaying st;
     searchTerm := s; filterType := filterType st |}.

Definition setFilterType (s : string) (st : state) : state :=
  {| activeClauseIndex := activeClauseIndex st; isPlaying := isPlaying st;
     searchTerm := searchTerm st; filterType := s |}.

(** The play/pause button. *)
Definition togglePlay (st : state) : state := setIsPlaying (negb (isPlaying st)) st.

(** The previous and next buttons. *)
Definition previous (st : state) : state :=
  setActiveClauseIndex (Z.max 0 (activeClauseIndex st - 1)) st.

Definition next (text : string) (clauses : list Clause) (st : state) : state :=
  setActiveClauseIndex
    (Z.min (Z.of_nat (List.length (shown text clauses st)) - 1)
           (activeClauseIndex st + 1)) st.

(** The auto-play effect keeps an interval exactly while [isPlaying] holds
    and the shown list is not empty. *)
Definition interval_running (text : string) (clauses : list Clause) (st : state) : bool :=
  isPlaying st && (0 <? List.length (shown text clauses st))%nat.

(** One firing of the interval (every 2500 ms): the updater passed to
    [setActiveClauseIndex], with its call of [setIsPlaying(false)]. *)
Definition tick (text : string) (clauses : list Clause) (st : state) : state :=
  if interval_running text clauses st then
    let prev := activeClauseIndex st in
    if (prev >=? Z.of_nat (List.length (shown text clauses st)) - 1)%Z
    then setIsPlaying false st
    else setActiveClauseIndex (prev + 1) st
  else st.

Fixpoint ticks (n : nat) (text : string) (clauses : list Clause) (st : state) : state :=
  match n with
  | O => st
  | S n' => ticks n' text clauses (tick text clauses st)
  end.

(** A rendered [span]. [data_index] is set on a highlight and absent on plain
    text; [startOffset] and [endOffset] are the arguments of the
    [text.substring] call that made [content]. *)
Record element := {
  data_index : option nat;
  startOffset : Z;
  endOffset : Z;
  content : string
}.

Definition span_of (text : string) (idx : option nat) (i j : Z) : element :=
  {| data_index := idx; startOffset := i; endOffset := j;
     content := substring2 text i j |}.

(** The body of [sortedClauses.forEach((clause, idx) => ...)], on the pair
    of [lastIndex] and [elements]. *)
Definition highlight_step (text : string) (acc : Z * list element)
    (item : nat * Clause) : Z * list element :=
  let '(lastIndex, elements) := acc in
  let '(idx, clause) := item in
  let startIndex := indexOfFrom text (c_text clause) lastIndex in
  let absoluteIndex := indexOf text (c_text clause) in
  if (absoluteIndex =? -1)%Z then acc
  else
    let displayStart :=
      if negb (startIndex =? -1)%Z then startIndex
      else indexOf text (c_text clause) in
    if (displayStart <? lastIndex)%Z then acc
    else
      let elements :=
        if (displayStart >? lastIndex)%Z
        then (elements ++ [span_of text None lastIndex displayStart])%list
        else elements in
      let stop := (displayStart + Z.of_nat (String.length (c_text clause)))%Z in
      (stop, (elements ++ [span_of text (Some idx) displayStart stop])%list).

Definition indexed {A : Type} (l : list A) : list (nat * A) :=
  combine (seq 0 (List.length l)) l.

Definition walk (text : string) (sorted : list Clause) : Z * list element :=
  fold_left (highlight_step text) (indexed sorted) (0%Z, []).

(** [None] is the placeholder paragraph shown when there is no text. *)
Definition renderHighlightedText (text : string) (sorted : list Clause)
  : option (list element) :=
  if (text =? "")%string then None
  else
    let '(lastIndex, elements) := walk text sorted in
    Some (if (lastIndex <? Z.of_nat (String.length text))%Z
          then (elements
                ++ [span_of text None lastIndex (Z.of_nat (String.length text))])%list
          else elements).

(** The highlighted spans among the rendered elements. *)
Definition highlights (els : list element) : list element :=
  filter (fun e => match data_index e with Some _ => true | None => false end) els.

End Viewer.

(* ===================================================================== *)
(** ** Chatbot.jsx *)
(* ===================================================================== *)

Module Chatbot.
Import JS.

Inductive sender_t := user | bot.

Record message := {
  id : nat;
  text : string;
  sender : sender_t;
  timestamp : nat;
  sources : option (list string)
}.

Record uploadedDoc := { doc_name : string; doc_size : nat; doc_url : string }.

Record state := {
  messages : list message;
  inputValue : string;
  isLoading : bool;
  uploadedDocs : list uploadedDoc
}.

(** What a handler leaves pending when it returns: a timer, or the request
    of [queryRAG]. [reply_id] is the [messages.length + 2] captured by the
    closure. *)
Inductive pending :=
| SetTimeout (delay : nat) (reply_id : nat)
| QueryRAG (question : string) (reply_id : nat).

Record response := {
  success : bool;
  answer : string;
  sources_used : option (list string)
}.

Definition greeting (now : nat) : message :=
  {| id := 1;
     text := "Hello! I'm RAG (Contextual AI Guide), your financial document assistant. Upload a document first, then ask me questions about it!";
     sender := bot; timestamp := now; sources := None |}.

Definition initial (now : nat) : state :=
  {| messages := [greeting now]; inputValue := ""; isLoading := false;
     uploadedDocs := [] |}.

Definition upload_prompt : string :=
  "Please upload a document first so I can answer questions about it. Click the upload button below!".

Definition setInputValue (v : string) (st : state) : state :=
  {| messages := messages st; inputValue := v; isLoading := isLoading st;
     uploadedDocs := uploadedDocs st |}.

Definition append_message (m : message) (st : state) : state :=
  {| messages := (messages st ++ [m])%list; inputValue := inputValue st;
     isLoading := isLoading st; uploadedDocs := uploadedDocs st |}.

Definition setIsLoading (b : bool) (st : state) : state :=
  {| messages := messages st; inputValue := inputValue st; isLoading := b;
     uploadedDocs := uploadedDocs st |}.

(** [handleSendMessage], up to its first suspension. *)
Definition handleSendMessage (now : nat) (st : state) : state * list pending :=
  if (trim (inputValue st) =? "")%string then (st, [])
  else
    let userMessage :=
      {| id := List.length (messages st) + 1; text := inputValue st;
         sender := user; timestamp := now; sources := None |} in
    let st1 := setInputValue "" (append_message userMessage st) in
    if (List.length (uploadedDocs st) =? 0)%nat
    then (st1, [SetTimeout 500 (List.length (messages st) + 2)])
    else (setIsLoading true st1,
          [QueryRAG (inputValue st) (List.length (messages st) + 2)]).

(** The callback of [setTimeout]. *)
Definition timeout_fired (now reply_id : nat) (st : state) : state :=
  append_message
    {| id := reply_id; text := upload_prompt; sender := bot; timestamp := now;
       sources := None |} st.

(** The continuation of [await queryRAG(inputValue)]: the reply, or the
    [catch] branch with the error's message; [finally] clears the flag. *)
Definition query_settled (now reply_id : nat) (r : response + string) (st : state)
  : state :=
  let m :=
    match r with
    | inl response =>
        {| id := reply_id;
           text := if success response then answer response
                   else "I encountered an error processing your question.";
           sender := bot; timestamp := now; sources := sources_used response |}
    | inr error_message =>
        {| id := reply_id;
           text := "Error: " ++ error_message
                   ++ ". Make sure you've uploaded a document first!";
           sender := bot; timestamp := now; sources := None |}
    end in
  setIsLoading false (append_message m st).

(** Running one pending action to completion; a request settles with the
    outcome the network gives ([net]). *)
Definition settle (now : nat) (net : string -> response + string) (p : pending)
    (st : state) : state :=
  match p with
  | SetTimeout _ reply_id => timeout_fired now reply_id st
  | QueryRAG question reply_id => query_settled now reply_id (net question) st
  end.

Definition is_network_call (p : pending) : bool :=
  match p with
  | SetTimeout _ _ => false
  | QueryRAG _ _ => true
  end.

Definition handleClearChat (now : nat) (st : state) : state :=
  {| messages :=
       [ {| id := 1;
            text := "Chat cleared. Hello! I'm RAG, your financial document assistant. Upload a document to get started!";
            sender := bot; timestamp := now; sources := None |} ];
     inputValue := inputValue st;
     isLoading := isLoading st;
     uploadedDocs := [] |}.

End Chatbot.

(* ===================================================================== *)
(** ** Reference definitions, stated from the specification *)
(* ===================================================================== *)

Module Spec.
Import JS.

Definition high_keywords : list string :=
  ["liability"; "termination"; "indemnity"; "payment"; "dispute"].

Definition medium_keywords : list string :=
  ["confidentiality"; "warranty"; "governing"; "interest"].

(** Importance as the data model words it: a case-insensitive substring
    match of the type against the two keyword sets, high first. *)
Definition importance_of_type (type : string) : importance :=
  let t := toLowerCase type in
  if existsb (includes t) high_keywords then high
  else if existsb (includes t) medium_keywords then medium
  else low.

(** The risk bucket that stands for an importance. *)
Definition bump (i : importance) (r : AnalysisCharts.riskLevels_t)
  : AnalysisCharts.riskLevels_t :=
  match i with
  | high =>
      {| AnalysisCharts.High := AnalysisCharts.High r + 1;
         AnalysisCharts.Medium := AnalysisCharts.Medium r;
         AnalysisCharts.Low := AnalysisCharts.Low r |}
  | medium =>
      {| AnalysisCharts.High := AnalysisCharts.High r;
         AnalysisCharts.Medium := AnalysisCharts.Medium r + 1;
         AnalysisCharts.Low := AnalysisCharts.Low r |}
  | low =>
      {| AnalysisCharts.High := AnalysisCharts.High r;
         AnalysisCharts.Medium := AnalysisCharts.Medium r;
         AnalysisCharts.Low := AnalysisCharts.Low r + 1 |}
  end.

(** An extraction that carries a type and nothing else. *)
Definition of_type (type : string) : extraction :=
  {| e_extraction_class := None; e_type := Some type; e_class := None;
     e_extraction_text := None; e_text := None; e_attributes := None |}.

(** The type of an extraction as sent, before any rewriting. *)
Definition sent_type (c : extraction) : string :=
  or_default (or_else (or_else (e_extraction_class c) (e_type c)) (e_class c))
             "General Clause".

(** The three shapes of a clause payload. *)
Definition shape_a (text : option string) (results : list (string * modelResult))
  : clause_payload :=
  {| p_text := text; p_results := Some results; p_clauses := None;
     p_langextract := None |}.

Definition shape_b (text : option string) (l : list extraction) : clause_payload :=
  {| p_text := text; p_results := None; p_clauses := Some l;
     p_langextract := None |}.

Definition shape_c (text : option string) (l : list extraction) : clause_payload :=
  {| p_text := text; p_results := None; p_clauses := None;
     p_langextract := Some {| nl_clauses := Some l |} |}.

(** The extractions that a multi-model payload holds, model after model. *)
Definition all_extractions (results : list (string * modelResult)) : list extraction :=
  flat_map (fun m => match extractions (snd m) with
                     | Some ex => ex
                     | None => []
                     end) results.

(** [s] occurs in [text] at position [p]. *)
Definition occurs_at (text s : string) (p : nat) : Prop :=
  substring p (String.length s) text = s.

(** The characters of the rendered elements, in order. *)
Definition text_of (els : list Viewer.element) : string :=
  fold_right (fun e acc => Viewer.content e ++ acc) "" els.

(** Number of clauses of a given importance. *)
Definition count_importance (i : importance) (l : list Clause) : nat :=
  List.length (filter (fun c => match c_importance c, i with
                                | high, high | medium, medium | low, low => true
                                | _, _ => false
                                end) l).

(** A normalized clause read back as an object with a [type] and a [text]. *)
Definition as_object (c : Clause) : extraction :=
  {| e_extraction_class := None; e_type := Some (c_type c); e_class := None;
     e_extraction_text := None; e_text := Some (c_text c);
     e_attributes := Some (c_attributes c) |}.

(** The buckets with their counts, empty ones left out. *)
Definition buckets (nh nm nl : nat) : list AnalysisCharts.risk_item :=
  filter (fun item => (0 <? AnalysisCharts.r_value item)%nat)
    [ {| AnalysisCharts.r_name := "High Risk"; AnalysisCharts.r_value := nh;
         AnalysisCharts.r_color := "#ef4444" |};
      {| AnalysisCharts.r_name := "Medium Risk"; AnalysisCharts.r_value := nm;
         AnalysisCharts.r_color := "#f59e0b" |};
      {| AnalysisCharts.r_name := "Low Risk"; AnalysisCharts.r_value := nl;
         AnalysisCharts.r_color := "#10b981" |} ].

(** Consecutive spans do not overlap: each ends where the next starts, or
    before. *)
Fixpoint non_overlapping (hs : list Viewer.element) : Prop :=
  match hs with
  | a :: (b :: _) as tl =>
      (Viewer.endOffset a <= Viewer.startOffset b)%Z /\ non_overlapping tl
  | _ => True
  end.

(** What holds of [lastIndex] and [elements] all along the walk over the
    list [sorted]. *)
Record walk_invariant (text : string) (sorted : list Clause)
    (acc : Z * list Viewer.element) : Prop := {
  wi_bounds : (0 <= fst acc <= Z.of_nat (String.length text))%Z;
  wi_text : text_of (snd acc) = substring 0 (Z.to_nat (fst acc)) text;
  wi_below : forall e, In e (Viewer.highlights (snd acc)) ->
                       (Viewer.endOffset e <= fst acc)%Z;
  wi_chain : non_overlapping (Viewer.highlights (snd acc));
  wi_source : forall e i, In e (snd acc) -> Viewer.data_index e = Some i ->
      exists c, nth_error sorted i = Some c
                /\ Viewer.content e = c_text c
                /\ (0 <= Viewer.startOffset e)%Z
                /\ Viewer.endOffset e
                   = (Viewer.startOffset e + Z.of_nat (String.length (c_text c)))%Z
}.

(** Empty, or made of white space only. *)
Fixpoint all_space (s : string) : bool :=
  match s with
  | EmptyString => true
  | String c s' => is_space c && all_space s'
  end.

(** The key under which the entity chart counts an entity. *)
Definition label_key (e : entity) : string := property_key (en_label e).

(** Number of entities counted under the key [k]. *)
Definition occurrences (k : string) (es : list entity) : nat :=
  List.length (filter (fun e => (label_key e =? k)%string) es).

(** The count stored under a key, 0 when there is none. *)
Definition value_of (counts : list (string * nat)) (k : string) : nat :=
  match get counts k with
  | Some n => n
  | None => 0
  end.

(** The comparator of the entity chart. *)
Definition by_value_descending (a b : AnalysisCharts.entity_item) : Z :=
  (Z.of_nat (AnalysisCharts.value b) - Z.of_nat (AnalysisCharts.value a))%Z.

(** Values from the largest to the smallest. *)
Fixpoint descending (l : list AnalysisCharts.entity_item) : Prop :=
  match l with
  | a :: (b :: _) as tl =>
      (AnalysisCharts.value b <= AnalysisCharts.value a)%nat /\ descending tl
  | _ => True
  end.

(** No underscore and no space among the characters of a keyword. *)
Fixpoint no_separator (s : string) : bool :=
  match s with
  | EmptyString => true
  | String c s' =>
      negb (code c =? 95)%nat && negb (code c =? 32)%nat && no_separator s'
  end.

End Spec.

(* ===================================================================== *)
(** ** Sample inputs *)
(* ===================================================================== *)

Module Examples.

(** The end-to-end scenario: a two-sentence document and its two clauses. *)
Definition document : string :=
  "A. The Liability Clause limits damages. B. The Confidentiality Clause restricts disclosure.".

Definition clause_of (type text : string) : extraction :=
  {| e_extraction_class := None; e_type := Some type; e_class := None;
     e_extraction_text := None; e_text := Some text; e_attributes := None |}.

Definition liability : extraction :=
  clause_of "liability_clause" "The Liability Clause limits damages".

Definition confidentiality : extraction :=
  clause_of "confidentiality_clause"
            "The Confidentiality Clause restricts disclosure".

Definition payload : clause_payload :=
  {| p_text := Some document; p_results := None;
     p_clauses := Some [liability; confidentiality]; p_langextract := None |}.

Definition analysisResults : bundle :=
  {| ner := None; finbert := None; langextract := Some payload |}.

(** A payload with a clause whose text is too short to be listed. *)
Definition short_clause : extraction := clause_of "liability_clause" "short".

Definition short_payload : clause_payload :=
  {| p_text := None; p_results := None; p_clauses := Some [short_clause];
     p_langextract := None |}.

(** An entity that names its category in [type] and has no [label]. *)
Definition acme : entity :=
  {| en_text := Some "Acme Corp"; en_label := None; en_type := Some "ORG" |}.

Definition typed_entities : bundle :=
  {| ner := Some {| ner_entities := Some [acme] |}; finbert := None;
     langextract := None |}.

(** Three clauses found one after the other in a short text. *)
Definition three_text : string := "alpha beta gamma".

Definition three_clauses : list Clause :=
  map ClauseExtraction.mapClause
    [ clause_of "payment" "alpha"; clause_of "notice" "beta";
      clause_of "warranty" "gamma" ].

End Examples.

(* ===================================================================== *)
(** ** The controls of the clause viewer *)
(* ===================================================================== *)

Module ViewerControls.
Import JS Viewer.

(** [[...new Set(l)]]: the first occurrence of every value, in order. *)
Fixpoint unique_from (seen : list string) (l : list string) : list string :=
  match l with
  | [] => []
  | x :: l' =>
      if existsb (String.eqb x) seen then unique_from seen l'
      else x :: unique_from (x :: seen) l'
  end.

Definition clauseTypes (clauses : list Clause) : list string :=
  "all" :: unique_from [] (map c_type clauses).

(** The [disabled] attributes of the two arrow buttons. *)
Definition previous_disabled (st : state) : bool :=
  (activeClauseIndex st <=? 0)%Z.

Definition next_disabled (text : string) (clauses : list Clause) (st : state) : bool :=
  (activeClauseIndex st >=? Z.of_nat (List.length (shown text clauses st)) - 1)%Z.

(** What the user and the timer can do to the component. A clause is
    clicked through its card or its highlight, which exist for the indices of
    the shown list; a filter button exists for every entry of [clauseTypes]. *)
Inductive event :=
| PreviousClick
| NextClick
| PlayClick
| IntervalFired
| ClauseClick (idx : nat)
| SearchInput (term : string)
| FilterClick (type : string).

Definition handle (text : string) (clauses : list Clause) (ev : event) (st : state)
  : state :=
  match ev with
  | PreviousClick => if previous_disabled st then st else previous st
  | NextClick => if next_disabled text clauses st then st else next text clauses st
  | PlayClick => togglePlay st
  | IntervalFired => tick text clauses st
  | ClauseClick idx =>
      if (idx <? List.length (shown text clauses st))%nat
      then setActiveClauseIndex (Z.of_nat idx) st else st
  | SearchInput term => setSearchTerm term st
  | FilterClick type =>
      if existsb (String.eqb type) (clauseTypes clauses)
      then setFilterType type st else st
  end.

Definition run (text : string) (clauses : list Clause) (evs : list event) (st : state)
  : state :=
  fold_left (fun s ev => handle text clauses ev s) evs st.

End ViewerControls.

(* ===================================================================== *)
(** ** The filter of the entity tab *)
(* ===================================================================== *)

Module NERFilter.

Definition filteredEntities (selectedFilter : string)
    (entities : list NERAnalysis.entityGroup) : list NERAnalysis.entityGroup :=
  if (selectedFilter =? "all")%string then entities
  else filter (fun e => (NERAnalysis.type e =? selectedFilter)%string) entities.

End NERFilter.

(* ===================================================================== *)
(** ** Chatbot.jsx: uploads and whole exchanges *)
(* ===================================================================== *)

Module ChatSession.
Import JS Chatbot.

(** The selected file and the answer of [uploadRAGDocument]. *)
Record file := { file_name : string }.

Record upload_result := { filename : string; size_bytes : nat }.

(** The chat state together with the [isUploading] cell. *)
Record session := { chat : state; isUploading : bool }.

Definition initial (now : nat) : session :=
  {| chat := Chatbot.initial now; isUploading := false |}.

(** The double quote, and the two emoji of the upload messages (U+2705 and
    U+274C), each kept as the bytes of its UTF-8 encoding. *)
Definition quote : string := String (ascii_of_nat 34) "".

Definition check_mark : string :=
  String (ascii_of_nat 226) (String (ascii_of_nat 156) (String (ascii_of_nat 133) "")).

Definition cross_mark : string :=
  String (ascii_of_nat 226) (String (ascii_of_nat 157) (String (ascii_of_nat 140) "")).

Definition bot_message (id now : nat) (text : string) : message :=
  {| id := id; text := text; sender := bot; timestamp := now; sources := None |}.

(** [handleFileUpload] up to [await uploadRAGDocument(file)]: [None] when
    no file was chosen, else the number of messages seen by the closure. *)
Definition handleFileUpload (now : nat) (f : option file) (s : session)
  : session * option nat :=
  match f with
  | None => (s, None)
  | Some file =>
      let botMessage :=
        bot_message (List.length (messages (chat s)) + 1) now
          ("Uploading " ++ quote ++ file_name file ++ quote ++ "...") in
      ({| chat := append_message botMessage (chat s); isUploading := true |},
       Some (List.length (messages (chat s))))
  end.

(** The rest of [handleFileUpload], once the request has settled with a
    result or with an error message. *)
Definition upload_settled (now : nat) (file : file) (seen : nat)
    (r : upload_result + string) (s : session) : session :=
  match r with
  | inl result =>
      let newDoc :=
        {| doc_name := file_name file; doc_size := size_bytes result;
           doc_url := "http://localhost:8001/uploads/" ++ filename result |} in
      let st := chat s in
      let st :=
        {| messages := messages st; inputValue := inputValue st;
           isLoading := isLoading st;
           uploadedDocs := (uploadedDocs st ++ [newDoc])%list |} in
      let successMessage :=
        bot_message (seen + 2) now
          (check_mark ++ " Successfully uploaded and processed " ++ quote
           ++ file_name file ++ quote ++ "! Ask me anything about this document.") in
      {| chat := append_message successMessage st; isUploading := false |}
  | inr error_message =>
      let errorMessage :=
        bot_message (seen + 2) now
          (cross_mark ++ " Failed to upload document: " ++ error_message) in
      {| chat := append_message errorMessage (chat s); isUploading := false |}
  end.

(** A whole exchange: the handler and, before anything else happens, all
    that it left pending. *)
Inductive exchange :=
| Clear
| Ask (question : string)
| Upload (f : option file) (outcome : upload_result + string).

Definition exchange_step (now : nat) (net : string -> response + string)
    (ex : exchange) (s : session) : session :=
  match ex with
  | Clear => {| chat := handleClearChat now (chat s); isUploading := isUploading s |}
  | Ask question =>
      let '(st, todo) := handleSendMessage now (setInputValue question (chat s)) in
      {| chat := fold_left (fun st p => settle now net p st) todo st;
         isUploading := isUploading s |}
  | Upload f outcome =>
      match handleFileUpload now f s with
      | (s', Some seen) =>
          match f with
          | Some file => upload_settled now file seen outcome s'
          | None => s'
          end
      | (s', None) => s'
      end
  end.

Definition exchanges (now : nat) (net : string -> response + string)
    (l : list exchange) (s : session) : session :=
  fold_left (fun s ex => exchange_step now net ex s) l s.

End ChatSession.

(* ===================================================================== *)
(** ** Results.jsx *)
(* ===================================================================== *)

Module Results.
Import JS.

(** The three check boxes; a flag that is missing reads as [false]. *)
Record selection := { sel_ner : bool; sel_sentiment : bool; sel_clauses : bool }.

(** [location.state]. *)
Record navigation := {
  nav_analysisResults : option bundle;
  nav_selectedFeatures : option selection;
  nav_fileName : option string
}.

Record state := {
  activeTab : string;
  selectedAnalyses : selection;
  uploadedFiles : list string;
  analysisResults : option bundle
}.

Definition initial : state :=
  {| activeTab := "ner";
     selectedAnalyses := {| sel_ner := true; sel_sentiment := true;
                            sel_clauses := false |};
     uploadedFiles := [];
     analysisResults := None |}.

(** The tab chosen for a selection, if any. *)
Definition first_selected (features : selection) (current : string) : string :=
  if sel_ner features then "ner"
  else if sel_sentiment features then "sentiment"
  else if sel_clauses features then "clause"
  else current.

(** The loading effect. [stored] and [files] are the two entries of the
    session storage, already parsed. [None] is the [TypeError] of reading
    [selectedFeatures] of a missing [location.state]. *)
Definition load (location_state : option navigation) (globalResults : option bundle)
    (stored : option selection) (files : option (list string)) (st : state)
  : option state :=
  let data :=
    match location_state with
    | Some nav =>
        match nav_analysisResults nav with
        | Some d => Some d
        | None => globalResults
        end
    | None => globalResults
    end in
  match data with
  | Some d =>
      match location_state with
      | None => None
      | Some nav =>
          Some {| activeTab :=
                    match nav_selectedFeatures nav with
                    | Some features => first_selected features (activeTab st)
                    | None => activeTab st
                    end;
                  selectedAnalyses :=
                    match nav_selectedFeatures nav with
                    | Some features => features
                    | None => selectedAnalyses st
                    end;
                  uploadedFiles :=
                    if truthy (nav_fileName nav)
                    then [or_default (nav_fileName nav) ""] else [];
                  analysisResults := Some d |}
      end
  | None =>
      Some {| activeTab :=
                match stored with
                | Some analyses => first_selected analyses (activeTab st)
                | None => activeTab st
                end;
              selectedAnalyses :=
                match stored with
                | Some analyses => analyses
                | None => selectedAnalyses st
                end;
              uploadedFiles :=
                match files with
                | Some l => l
                | None => uploadedFiles st
                end;
              analysisResults := analysisResults st |}
  end.

Definition allTabs : list string := ["ner"; "sentiment"; "clause"].

(** The identifiers of the tabs that are shown. *)
Definition tabs (st : state) : list string :=
  filter (fun id =>
            if (id =? "ner")%string then sel_ner (selectedAnalyses st)
            else if (id =? "sentiment")%string then sel_sentiment (selectedAnalyses st)
            else if (id =? "clause")%string then sel_clauses (selectedAnalyses st)
            else false)
         allTabs.

(** [iso.replace(/[:.]/g, '-').slice(0, -5)] on the text of
    [new Date().toISOString()]. *)
Definition dash (c : ascii) : ascii :=
  if (code c =? 58)%nat || (code c =? 46)%nat then "-"%char else c.

Definition drop_last (k : nat) (s : string) : string :=
  substring 0 (String.length s - k) s.

Definition timestamp (iso : string) : string := drop_last 5 (map_chars dash iso).

(** The file names of [handleDownload] and [handleGenerateReport]. *)
Definition download_filename (iso format : string) : string :=
  "financial_analysis_" ++ timestamp iso ++ "." ++ format.

Definition report_filename (iso : string) : string :=
  "financial_report_" ++ timestamp iso ++ ".html".

End Results.

(* ===================================================================== *)
(** ** Further reference definitions *)
(* ===================================================================== *)

Module Reference.
Import JS.

(** The key under which the entity tab groups an entity. *)
Definition group_key (e : entity) : string :=
  or_default (or_else (en_label e) (en_type e)) "OTHER".

(** The entities of a group, in the order received. *)
Definition members (k : string) (es : list entity) : list entity :=
  filter (fun e => (group_key e =? k)%string) es.

Definition total_count (gs : list NERAnalysis.entityGroup) : nat :=
  fold_right (fun g acc => NERAnalysis.count g + acc)%nat 0%nat gs.

(** The position of the first occurrence of a clause in the text. *)
Definition first_occurrence (text : string) (c : Clause) : Z :=
  indexOf text (c_text c).

(** From [cursor] on, the first occurrences of the clauses follow each
    other without overlap. *)
Fixpoint disjoint_from (text : string) (cursor : Z) (l : list Clause) : Prop :=
  match l with
  | [] => True
  | c :: l' =>
      (cursor <= first_occurrence text c)%Z
      /\ disjoint_from text
           (first_occurrence text c + Z.of_nat (String.length (c_text c)))%Z l'
  end.

(** The highlight of a clause at its first occurrence. *)
Definition highlight_at_first (text : string) (ic : nat * Clause) : Viewer.element :=
  Viewer.span_of text (Some (fst ic)) (first_occurrence text (snd ic))
    (first_occurrence text (snd ic) + Z.of_nat (String.length (c_text (snd ic))))%Z.

(** The active index names no clause ([-1]) or one of the shown list. *)
Definition in_range (text : string) (clauses : list Clause) (st : Viewer.state) : Prop :=
  (-1 <= Viewer.activeClauseIndex st
   <= Z.of_nat (List.length (Viewer.shown text clauses st)) - 1)%Z.

(** The events that leave the search term and the filter alone. *)
Definition keeps_filters (ev : ViewerControls.event) : bool :=
  match ev with
  | ViewerControls.SearchInput _ | ViewerControls.FilterClick _ => false
  | _ => true
  end.

(** Number of uploads that succeeded after the last [Clear] of a list of
    exchanges. *)
Fixpoint uploads_kept (l : list ChatSession.exchange) (acc : nat) : nat :=
  match l with
  | [] => acc
  | ChatSession.Clear :: l' => uploads_kept l' 0
  | ChatSession.Upload (Some _) (inl _) :: l' => uploads_kept l' (S acc)
  | _ :: l' => uploads_kept l' acc
  end.

(** No underscore among the characters. *)
Fixpoint no_underscore (s : string) : bool :=
  match s with
  | EmptyString => true
  | String c s' => negb (code c =? 95)%nat && no_underscore s'
  end.

(** One of the three clause fields of a payload is present. *)
Definition has_clause_field (d : clause_payload) : bool :=
  match p_clauses d, p_results d, p_langextract d with
  | None, None, None => false
  | _, _, _ => true
  end.

(** The sum of the values of the risk chart. *)
Definition total_value (items : list AnalysisCharts.risk_item) : nat :=
  fold_right (fun it acc => AnalysisCharts.r_value it + acc)%nat 0%nat items.

(** What the entity tab holds for the key [k] after the entities [es]: no
    group when no entity has the key, else the group of its members. *)
Definition group_of (o : list (string * NERAnalysis.entityGroup)) (es : list entity)
    (k : string) : Prop :=
  match get o k with
  | None => members k es = []
  | Some g =>
      NERAnalysis.type g = k
      /\ NERAnalysis.count g = List.length (members k es)
      /\ NERAnalysis.examples g = firstn 10 (map en_text (members k es))
      /\ (1 <= NERAnalysis.count g)%nat
  end.

(** The sentence list of a sentiment payload. *)
Definition sentences_of (d : sentiment_payload) : list sentence_result :=
  match sentence_results d with
  | Some l => l
  | None => []
  end.

(** The messages carry the identifiers 1, 2, 3, ... in order. *)
Definition numbered (msgs : list Chatbot.message) : Prop :=
  map Chatbot.id msgs = seq 1 (List.length msgs).

(** The identifier that a pending action gives to its reply. *)
Definition reply_id_of (p : Chatbot.pending) : nat :=
  match p with
  | Chatbot.SetTimeout _ r => r
  | Chatbot.QueryRAG _ r => r
  end.

(** No colon and no full stop among the characters. *)
Fixpoint plain (s : string) : bool :=
  match s with
  | EmptyString => true
  | String c s' =>
      negb (code c =? 58)%nat && negb (code c =? 46)%nat && plain s'
  end.

(** The names of the properties that an object literal inherits from
    [Object.prototype]: in [{}] a lookup of one of them finds the inherited
    value, where [JS.get] on the own properties finds nothing. *)
Definition inherited_names : list string :=
  [ "constructor"; "__proto__"; "hasOwnProperty"; "isPrototypeOf";
    "propertyIsEnumerable"; "toLocaleString"; "toString"; "valueOf";
    "__defineGetter__"; "__defineSetter__"; "__lookupGetter__";
    "__lookupSetter__" ].

(** [k] names no inherited property: on an object literal, [o[k]] reads and
    writes an own property only. *)
Definition own_name (k : string) : bool :=
  negb (existsb (String.eqb k) inherited_names).

(** Every entity carries a string as its label, and no label names an
    inherited property. *)
Definition labels_are_own_names (es : list entity) : bool :=
  forallb (fun e => match en_label e with
                    | Some s => own_name s
                    | None => false
                    end) es.

(** No entity is grouped under the name of an inherited property. *)
Definition groups_are_own_names (es : list entity) : bool :=
  forallb (fun e => own_name (group_key e)) es.

(** The average score that the payload lists for the label [s]. *)
Definition listed_score (st : statistics_t) (s : string) : option PrimFloat.float :=
  match average_scores st with
  | Some scores => get scores s
  | None => None
  end.

End Reference.

(* ===================================================================== *)
(** ** Further sample inputs *)
(* ===================================================================== *)

Module MoreExamples.

(** The clauses of the end-to-end scenario as the viewer lists them. *)
Definition listed : list Clause :=
  Viewer.sortedClauses Examples.document
    (ClauseExtraction.clauses (ClauseExtraction.processedData (Some Examples.payload)))
    "" "all".

(** A visit of the three-clause viewer. *)
Definition visit : list ViewerControls.event :=
  [ ViewerControls.NextClick; ViewerControls.NextClick; ViewerControls.PlayClick;
    ViewerControls.IntervalFired; ViewerControls.IntervalFired;
    ViewerControls.PreviousClick; ViewerControls.ClauseClick 1 ].

(** Three labelled entities. *)
Definition labelled (text label : string) : entity :=
  {| en_text := Some text; en_label := Some label; en_type := None |}.

Definition three_entities : list entity :=
  [ labelled "Acme Corp" "ORG"; labelled "$5 million" "MONEY";
    labelled "Globex" "ORG" ].

(** The two clauses of the end-to-end scenario as the result of one model
    sends them: [results -> model name -> extractions]. *)
Definition extracted (cls text : string) : extraction :=
  {| e_extraction_class := Some cls; e_type := None; e_class := None;
     e_extraction_text := Some text; e_text := None; e_attributes := None |}.

Definition model_payload : clause_payload :=
  {| p_text := Some Examples.document;
     p_results :=
       Some [ ("gemini-2.5-flash",
               {| extractions :=
                    Some [ extracted "liability_clause"
                             "The Liability Clause limits damages";
                           extracted "confidentiality_clause"
                             "The Confidentiality Clause restricts disclosure" ];
                  json_output := None |}) ];
     p_clauses := None; p_langextract := None |}.

Definition model_results : bundle :=
  {| ner := None; finbert := None; langextract := Some model_payload |}.

(** The same two clauses under [langextract.clauses] of the clause payload. *)
Definition nested_payload : clause_payload :=
  {| p_text := Some Examples.document; p_results := None; p_clauses := None;
     p_langextract :=
       Some {| nl_clauses :=
                 Some [Examples.liability; Examples.confidentiality] |} |}.

(** A sentiment payload with its statistics and no sentence. *)
Definition positive_statistics : statistics_t :=
  {| overall_sentiment := Some "Positive";
     average_scores := Some [("Positive", PrimFloat.one); ("Negative", PrimFloat.zero)] |}.

Definition positive_payload : sentiment_payload :=
  {| statistics := Some positive_statistics; sentence_results := None |}.

(** A chat in which one upload has succeeded. *)
Definition offline : string -> Chatbot.response + string := fun _ => inr "offline".

Definition after_upload : Chatbot.state :=
  ChatSession.chat
    (ChatSession.exchanges 0 offline
       [ ChatSession.Upload (Some {| ChatSession.file_name := "report.pdf" |})
           (inl {| ChatSession.filename := "report.pdf";
                   ChatSession.size_bytes := 1024 |}) ]
       (ChatSession.initial 0)).

(** A navigation that asks for sentiment and clauses only. *)
Definition arrival : Results.navigation :=
  {| Results.nav_analysisResults := Some Examples.analysisResults;
     Results.nav_selectedFeatures :=
       Some {| Results.sel_ner := false; Results.sel_sentiment := true;
               Results.sel_clauses := true |};
     Results.nav_fileName := Some "contract.pdf" |}.

End MoreExamples.

(* ===================================================================== *)
(** ** Facts about the string operations *)
(* ===================================================================== *)

Section StringFacts.
Import JS.

Local Ltac by_cases_on c :=
  destruct c as [[] [] [] [] [] [] [] []]; vm_compute; reflexivity.

Lemma lower_upper_word_char (c : ascii) :
  lower_char (upper_word_char c) = lower_char c.
Proof. by_cases_on c. Qed.

Lemma lower_underscore_to_space (c : ascii) :
  lower_char (underscore_to_space c) = underscore_to_space (lower_char c).
Proof. by_cases_on c. Qed.

Lemma length_map_chars (f : ascii -> ascii) (s : string) :
  String.length (map_chars f s) = String.length s.
Proof. induction s as [|c s IH]; simpl; [reflexivity | now rewrite IH]. Qed.

Lemma toLowerCase_capitalize_from (b : bool) (s : string) :
  toLowerCase (capitalize_from b s) = toLowerCase s.
Proof.
  unfold toLowerCase.
  revert b; induction s as [|c s IH]; intros b; cbn [capitalize_from map_chars];
    [reflexivity|].
  rewrite IH; f_equal.
  destruct (is_word c && negb b); [apply lower_upper_word_char | reflexivity].
Qed.

Lemma toLowerCase_replace_underscores (s : string) :
  toLowerCase (replace_underscores s) = replace_underscores (toLowerCase s).
Proof.
  unfold toLowerCase, replace_underscores.
  induction s as [|c s IH]; cbn [map_chars]; [reflexivity|].
  now rewrite IH, lower_underscore_to_space.
Qed.

(** A character that is no separator is equal to a character exactly when
    it is equal to that character with the underscore replaced. *)
Lemma separator_free_char (a b : ascii) :
  (code a =? 95)%nat = false -> (code a =? 32)%nat = false ->
  (if ascii_dec a (underscore_to_space b) then true else false)
  = (if ascii_dec a b then true else false).
Proof.
  intros H95 H32. unfold underscore_to_space.
  destruct (code b =? 95)%nat eqn:Hb; [|reflexivity].
  destruct (ascii_dec a " "%char) as [->|_].
  - vm_compute in H32. discriminate.
  - destruct (ascii_dec a b) as [->|_]; [|reflexivity].
    rewrite Hb in H95. discriminate.
Qed.

Lemma prefix_replace_underscores (kw t : string) :
  Spec.no_separator kw = true ->
  prefix kw (replace_underscores t) = prefix kw t.
Proof.
  revert t; induction kw as [|a kw IH]; intros t Hkw.
  - now destruct t.
  - simpl in Hkw.
    apply andb_true_iff in Hkw as [Ha Hkw].
    apply andb_true_iff in Ha as [H95 H32].
    apply negb_true_iff in H95, H32.
    destruct t as [|b t]; simpl; [reflexivity|].
    pose proof (separator_free_char a b H95 H32) as Hc.
    destruct (ascii_dec a (underscore_to_space b)), (ascii_dec a b);
      try discriminate; [now apply IH | reflexivity].
Qed.

Lemma index_replace_underscores (kw t : string) (n : nat) :
  Spec.no_separator kw = true ->
  index n kw (replace_underscores t) = index n kw t.
Proof.
  intros Hkw; revert n; induction t as [|b t IH]; intros n.
  - reflexivity.
  - destruct n as [|n].
    + change (replace_underscores (String b t))
        with (String (underscore_to_space b) (replace_underscores t)).
      cbn [index].
      change (String (underscore_to_space b) (replace_underscores t))
        with (replace_underscores (String b t)).
      rewrite (prefix_replace_underscores kw (String b t) Hkw).
      now rewrite IH.
    + change (replace_underscores (String b t))
        with (String (underscore_to_space b) (replace_underscores t)).
      cbn [index]. now rewrite IH.
Qed.

Lemma includes_replace_underscores (kw t : string) :
  Spec.no_separator kw = true ->
  includes (replace_underscores t) kw = includes t kw.
Proof.
  intros Hkw. unfold includes, indexOf, indexOfFrom, replace_underscores.
  rewrite length_map_chars.
  fold (replace_underscores t).
  now rewrite index_replace_underscores.
Qed.

(** Lower-casing after the clause list's rewriting of the type finds a
    keyword exactly when lower-casing the type as sent does. *)
Lemma includes_normalized_type (kw raw : string) :
  Spec.no_separator kw = true ->
  includes (toLowerCase (capitalize_words (replace_underscores raw))) kw
  = includes (toLowerCase raw) kw.
Proof.
  intros Hkw. unfold capitalize_words.
  rewrite toLowerCase_capitalize_from, toLowerCase_replace_underscores.
  now apply includes_replace_underscores.
Qed.

End StringFacts.

(* ===================================================================== *)
(** ** Importance: the clause list and the risk chart *)
(* ===================================================================== *)

Section Importance.
Import JS Spec.

Local Ltac split_on_keywords t :=
  destruct (includes t "liability"), (includes t "termination"),
           (includes t "indemnity"), (includes t "payment"),
           (includes t "dispute"), (includes t "confidentiality"),
           (includes t "warranty"), (includes t "governing"),
           (includes t "interest"); reflexivity.

Lemma mapClause_importance_by_type (c : extraction) :
  c_importance (ClauseExtraction.mapClause c)
  = importance_of_type (c_type (ClauseExtraction.mapClause c)).
Proof.
  unfold ClauseExtraction.mapClause, importance_of_type.
  cbn [c_importance c_type existsb high_keywords medium_keywords].
  set (t := toLowerCase _).
  split_on_keywords t.
Qed.

Lemma mapClause_importance_sent (c : extraction) :
  c_importance (ClauseExtraction.mapClause c) = importance_of_type (sent_type c).
Proof.
  unfold ClauseExtraction.mapClause, importance_of_type.
  cbn [c_importance existsb high_keywords medium_keywords].
  fold (sent_type c).
  rewrite !includes_normalized_type by reflexivity.
  set (t := toLowerCase _).
  split_on_keywords t.
Qed.

Lemma count_risk_sent (r : AnalysisCharts.riskLevels_t) (c : extraction) :
  AnalysisCharts.count_risk r c = bump (importance_of_type (sent_type c)) r.
Proof.
  unfold AnalysisCharts.count_risk, importance_of_type.
  cbn [existsb high_keywords medium_keywords].
  fold (sent_type c).
  set (t := toLowerCase _).
  split_on_keywords t.
Qed.

Lemma sent_type_of_type (type : string) :
  importance_of_type (sent_type (of_type type)) = importance_of_type type.
Proof. destruct type; reflexivity. Qed.

Lemma bump_injective (i j : importance) (r : AnalysisCharts.riskLevels_t) :
  bump i r = bump j r -> i = j.
Proof.
  destruct i, j; cbn; intros H; try reflexivity; injection H; lia.
Qed.

(** C1. The risk chart and the clause list give every extraction the same
    importance: the chart adds one to the bucket of the importance that the
    clause list stores, that importance is the keyword rule applied to the
    type alone (liability, termination, indemnity, payment or dispute give
    high; otherwise confidentiality, warranty, governing or interest give
    medium; otherwise low; letter case is ignored), and "Termination Clause"
    is high, "Confidentiality Agreement" medium and "Notice Provision" low on
    both paths. *)
Theorem importance_chart_equals_clause_list :
  (forall (c : extraction) (r : AnalysisCharts.riskLevels_t),
      AnalysisCharts.count_risk r c
      = bump (c_importance (ClauseExtraction.mapClause c)) r)
  /\ (forall c : extraction,
         c_importance (ClauseExtraction.mapClause c)
         = importance_of_type (c_type (ClauseExtraction.mapClause c)))
  /\ (forall (type : string) (r : AnalysisCharts.riskLevels_t),
         c_importance (ClauseExtraction.mapClause (of_type type))
         = importance_of_type type
         /\ AnalysisCharts.count_risk r (of_type type)
            = bump (importance_of_type type) r)
  /\ importance_of_type "Termination Clause" = high
  /\ importance_of_type "Confidentiality Agreement" = medium
  /\ importance_of_type "Notice Provision" = low.
Proof.
  split; [|split; [|split]].
  - intros c r. now rewrite count_risk_sent, mapClause_importance_sent.
  - apply mapClause_importance_by_type.
  - intros type r. split.
    + now rewrite mapClause_importance_sent, sent_type_of_type.
    + now rewrite count_risk_sent, sent_type_of_type.
  - repeat split; vm_compute; reflexivity.
Qed.

End Importance.

(* ===================================================================== *)
(** ** The clause normalizer *)
(* ===================================================================== *)

Section Normalizer.
Import JS Spec ClauseExtraction.

Lemma collect_extractions (results : list (string * modelResult))
    (acc : list extraction) :
  fold_left
    (fun acc (m : string * modelResult) =>
       match extractions (snd m) with
       | Some ex => (acc ++ ex)%list
       | None => acc
       end) results acc
  = (acc ++ all_extractions results)%list.
Proof.
  revert acc; induction results as [|m results IH]; intros acc; cbn.
  - now rewrite app_nil_r.
  - rewrite IH. destruct (extractions (snd m)); [now rewrite app_assoc | reflexivity].
Qed.

Lemma rawClauses_shape_a text results :
  rawClauses (shape_a text results) = all_extractions results.
Proof. unfold rawClauses, shape_a; cbn. apply collect_extractions. Qed.

(** C2. One list of extractions, sent as the results of the models (shape
    a), as the flat list (shape b) or as the nested legacy list (shape c),
    gives the same clause list: same clauses, in the same order. A payload
    with a single model carries exactly that model's extractions. *)
Theorem normalizer_shape_invariant :
  (forall (ta tb tc : option string) (results : list (string * modelResult)),
      clauses (processedData (Some (shape_a ta results)))
      = clauses (processedData (Some (shape_b tb (all_extractions results))))
      /\ clauses (processedData (Some (shape_b tb (all_extractions results))))
         = clauses (processedData (Some (shape_c tc (all_extractions results)))))
  /\ (forall (model : string) (jo : option json_output_t) (l : list extraction),
         all_extractions [(model, {| extractions := Some l; json_output := jo |})]
         = l)
  /\ (forall (ta tb tc : option string) (model : string)
             (jo : option json_output_t) (l : list extraction),
         clauses (processedData (Some (shape_b tb l)))
         = filter validClause (map mapClause l)
         /\ clauses (processedData (Some (shape_c tc l)))
            = filter validClause (map mapClause l)
         /\ clauses (processedData
                       (Some (shape_a ta
                                [(model, {| extractions := Some l;
                                            json_output := jo |})])))
            = filter validClause (map mapClause l)).
Proof.
  split; [|split].
  - intros ta tb tc results. split.
    + unfold processedData. cbn [p_clauses p_results p_langextract shape_a shape_b].
      cbn [clauses]. now rewrite rawClauses_shape_a.
    + reflexivity.
  - intros model jo l. cbn. apply app_nil_r.
  - intros ta tb tc model jo l. repeat split; reflexivity.
Qed.

(** C4. Whatever the payload, every clause of the normalized list has a
    text that is not empty, is not "null" in any letter case, is not "No text
    available", and has at least 6 characters. *)
Theorem normalized_clauses_are_valid
    (data : option clause_payload) (c : Clause) :
  In c (clauses (processedData data)) ->
  c_text c <> ""
  /\ toLowerCase (c_text c) <> "null"
  /\ c_text c <> "No text available"
  /\ (6 <= String.length (c_text c))%nat.
Proof.
  intros Hin.
  assert (Hv : validClause c = true).
  { destruct data as [d|]; cbn in Hin; [|contradiction].
    destruct (p_clauses d), (p_results d), (p_langextract d); cbn in Hin;
      try contradiction; apply filter_In in Hin; tauto. }
  unfold validClause in Hv.
  apply andb_true_iff in Hv as [Hv Hlen].
  apply andb_true_iff in Hv as [Hv Hnone].
  apply andb_true_iff in Hv as [Hempty Hnull].
  apply negb_true_iff, String.eqb_neq in Hempty, Hnull, Hnone.
  apply Nat.ltb_lt in Hlen.
  repeat split; assumption || lia.
Qed.

End Normalizer.

(* ===================================================================== *)
(** ** Searching and cutting strings *)
(* ===================================================================== *)

Section Searching.
Import JS Spec.

Lemma prefix_length (s1 s2 : string) :
  prefix s1 s2 = true -> (String.length s1 <= String.length s2)%nat.
Proof.
  revert s2; induction s1 as [|a s1 IH]; intros s2 H; cbn; [lia|].
  destruct s2 as [|b s2]; cbn in H; [discriminate|].
  destruct (ascii_dec a b); [|discriminate].
  apply IH in H. cbn. lia.
Qed.

Lemma index_bounds (s1 s2 : string) (n k : nat) :
  index n s1 s2 = Some k ->
  (n <= k)%nat /\ (k + String.length s1 <= String.length s2)%nat.
Proof.
  revert n k; induction s2 as [|b s2 IH]; intros n k H.
  - destruct n; cbn in H; [|discriminate].
    destruct s1; [|discriminate]. injection H as <-. cbn. lia.
  - destruct n as [|n]; cbn [index] in H.
    + destruct (prefix s1 (String b s2)) eqn:Hp.
      * injection H as <-. apply prefix_length in Hp. lia.
      * destruct (index 0 s1 s2) as [m|] eqn:Hi; [|discriminate].
        injection H as <-. apply IH in Hi. cbn. lia.
    + destruct (index n s1 s2) as [m|] eqn:Hi; [|discriminate].
      injection H as <-. apply IH in Hi. cbn. lia.
Qed.

Lemma index_empty_found (s : string) : index 0 "" s = Some 0%nat.
Proof. destruct s; reflexivity. Qed.

(** Nothing is found from [n] on, yet there is a first occurrence: it lies
    before [n]. *)
Lemma index_none_before (s1 s2 : string) (n k : nat) :
  index n s1 s2 = None -> index 0 s1 s2 = Some k -> (k < n)%nat.
Proof.
  intros Hnone Hsome.
  destruct (Nat.lt_ge_cases k n) as [|Hge]; [assumption|exfalso].
  destruct s1 as [|a s1].
  - rewrite index_empty_found in Hsome. injection Hsome as <-.
    apply index_correct4 in Hnone. lia.
  - apply index_correct1 in Hsome.
    now apply (index_correct3 n k (String a s1) s2 Hnone).
Qed.

Lemma substring_split (s : string) (a b : nat) :
  (a <= b)%nat ->
  substring 0 a s ++ substring a (b - a) s = substring 0 b s.
Proof.
  revert a b; induction s as [|c s IH]; intros a b Hab.
  - destruct a, b; cbn; try reflexivity; lia.
  - destruct a as [|a].
    + now rewrite Nat.sub_0_r.
    + destruct b as [|b]; [lia|].
      cbn [substring append Nat.sub]. f_equal. apply IH. lia.
Qed.

Lemma substring_nothing (s : string) (p : nat) : substring p 0 s = "".
Proof.
  revert p; induction s as [|c s IH]; intros [|p]; cbn; try reflexivity.
  apply IH.
Qed.

Lemma substring_all (s : string) : substring 0 (String.length s) s = s.
Proof. induction s as [|c s IH]; cbn; [reflexivity | now rewrite IH]. Qed.

Lemma substring2_ordered (s : string) (a b : nat) :
  (a <= b)%nat -> (b <= String.length s)%nat ->
  substring2 s (Z.of_nat a) (Z.of_nat b) = substring a (b - a) s.
Proof.
  intros Hab Hb. unfold substring2, clamp. rewrite !Nat2Z.id.
  now rewrite (Nat.min_l a), (Nat.min_l b), Nat.min_l, Nat.max_r by lia.
Qed.

(** What [indexOf] with a start position answers when it finds something. *)
Lemma indexOfFrom_found (text s : string) (position : Z) :
  indexOfFrom text s position <> (-1)%Z ->
  exists k, indexOfFrom text s position = Z.of_nat k
            /\ (clamp (String.length text) position <= k)%nat
            /\ (k + String.length s <= String.length text)%nat
            /\ occurs_at text s k.
Proof.
  unfold indexOfFrom.
  destruct (index _ s text) as [k|] eqn:H; [intros _|easy].
  pose proof (index_bounds _ _ _ _ H) as [? ?].
  exists k. apply index_correct1 in H. auto.
Qed.

Lemma append_empty_r (s : string) : s ++ "" = s.
Proof. induction s as [|c s IH]; cbn; [reflexivity | now rewrite IH]. Qed.

Lemma append_associative (s t u : string) : (s ++ t) ++ u = s ++ (t ++ u).
Proof. induction s as [|c s IH]; cbn; [reflexivity | now rewrite IH]. Qed.

End Searching.

(* ===================================================================== *)
(** ** The highlighted text of the clause viewer *)
(* ===================================================================== *)

Section Highlighting.
Import JS Spec Viewer.

(** The two outcomes of one step of the walk: the clause is skipped, or it
    is anchored at an occurrence [k] of its text at or after [lastIndex]. *)
Lemma highlight_step_cases (text : string) (lastIndex : Z)
    (elements : list element) (idx : nat) (clause : Clause) :
  (0 <= lastIndex <= Z.of_nat (String.length text))%Z ->
  highlight_step text (lastIndex, elements) (idx, clause) = (lastIndex, elements)
  \/ exists k : nat,
      (lastIndex <= Z.of_nat k)%Z
      /\ (k + String.length (c_text clause) <= String.length text)%nat
      /\ occurs_at text (c_text clause) k
      /\ highlight_step text (lastIndex, elements) (idx, clause)
         = ((Z.of_nat k + Z.of_nat (String.length (c_text clause)))%Z,
            ((if (Z.of_nat k >? lastIndex)%Z
              then elements ++ [span_of text None lastIndex (Z.of_nat k)]
              else elements)
             ++ [span_of text (Some idx) (Z.of_nat k)
                   (Z.of_nat k + Z.of_nat (String.length (c_text clause)))%Z])%list).
Proof.
  intros Hb. unfold highlight_step.
  destruct (indexOf text (c_text clause) =? -1)%Z eqn:Habs; [now left|].
  apply Z.eqb_neq in Habs.
  destruct (indexOfFrom text (c_text clause) lastIndex =? -1)%Z eqn:Hstart;
    cbn [negb].
  - destruct (indexOfFrom_found text (c_text clause) 0 Habs)
      as (k & Hk & _ & Hfit & Hocc).
    fold (indexOf text (c_text clause)) in Hk. rewrite Hk.
    destruct (Z.of_nat k <? lastIndex)%Z eqn:Hlt; [now left|].
    apply Z.ltb_ge in Hlt. right. exists k. auto.
  - apply Z.eqb_neq in Hstart.
    destruct (indexOfFrom_found text (c_text clause) lastIndex Hstart)
      as (k & Hk & Hfrom & Hfit & Hocc).
    rewrite Hk.
    assert (Hle : (lastIndex <= Z.of_nat k)%Z) by (unfold clamp in Hfrom; lia).
    apply Z.ltb_ge in Hle as Hlt. rewrite Hlt.
    right. exists k. auto.
Qed.

(** A clause with no occurrence of its text at or after [lastIndex] leaves
    both [lastIndex] and [elements] as they were. *)
Lemma highlight_step_skips (text : string) (lastIndex : Z)
    (elements : list element) (idx : nat) (clause : Clause) :
  (forall p : nat, (lastIndex <= Z.of_nat p)%Z ->
                   ~ occurs_at text (c_text clause) p) ->
  highlight_step text (lastIndex, elements) (idx, clause) = (lastIndex, elements).
Proof.
  intros Hnone. unfold highlight_step.
  destruct (indexOf text (c_text clause) =? -1)%Z eqn:Habs; [reflexivity|].
  apply Z.eqb_neq in Habs.
  assert (Hne : c_text clause <> "").
  { intros He. apply (Hnone (Z.to_nat lastIndex)); [lia|].
    rewrite He. apply substring_nothing. }
  destruct (indexOfFrom text (c_text clause) lastIndex =? -1)%Z eqn:Hstart;
    cbn [negb].
  - destruct (indexOfFrom_found text (c_text clause) 0 Habs)
      as (k & Hk & _ & _ & Hocc).
    fold (indexOf text (c_text clause)) in Hk. rewrite Hk.
    destruct (Z.of_nat k <? lastIndex)%Z eqn:Hlt; [reflexivity|].
    apply Z.ltb_ge in Hlt. now destruct (Hnone k Hlt).
  - apply Z.eqb_neq in Hstart.
    destruct (indexOfFrom_found text (c_text clause) lastIndex Hstart)
      as (k & Hk & Hfrom & Hfit & Hocc).
    exfalso. apply (Hnone k); [|assumption].
    assert (0 < String.length (c_text clause))%nat
      by (destruct (c_text clause); [easy | cbn; lia]).
    unfold clamp in Hfrom. lia.
Qed.

Lemma text_of_app (a b : list element) :
  text_of (a ++ b) = text_of a ++ text_of b.
Proof.
  unfold text_of. induction a as [|e a IH]; cbn; [reflexivity|].
  now rewrite IH, append_associative.
Qed.

Lemma highlights_app (a b : list element) :
  highlights (a ++ b) = (highlights a ++ highlights b)%list.
Proof. apply filter_app. Qed.

Lemma non_overlapping_snoc (hs : list element) (h : element) :
  non_overlapping hs ->
  (forall x, In x hs -> (endOffset x <= startOffset h)%Z) ->
  non_overlapping (hs ++ [h]).
Proof.
  induction hs as [|a [|b tl] IH]; intros Hno Hall.
  - exact I.
  - cbn. split; [apply Hall; now left | exact I].
  - destruct Hno as [Hab Htl]. split; [assumption|].
    apply IH; [assumption|]. intros x Hx. apply Hall. now right.
Qed.

Lemma non_overlapping_adjacent (hs : list element) (i : nat) (a b : element) :
  non_overlapping hs ->
  nth_error hs i = Some a -> nth_error hs (S i) = Some b ->
  (endOffset a <= startOffset b)%Z.
Proof.
  revert i; induction hs as [|x [|y tl] IH]; intros i Hno Ha Hb.
  - destruct i; discriminate.
  - destruct i as [|[|i]]; discriminate.
  - destruct Hno as [Hxy Htl]. destruct i as [|i].
    + cbn in Ha, Hb. injection Ha as <-. injection Hb as <-. assumption.
    + apply (IH i Htl); assumption.
Qed.

Lemma indexed_from (A : Type) (l : list A) (s i : nat) (c : A) :
  In (i, c) (combine (seq s (List.length l)) l) ->
  (s <= i)%nat /\ nth_error l (i - s) = Some c.
Proof.
  revert s; induction l as [|x l IH]; intros s H; cbn in H; [contradiction|].
  destruct H as [H|H].
  - injection H as <- <-. rewrite Nat.sub_diag. split; [lia | reflexivity].
  - apply IH in H as [Hle Hn]. split; [lia|].
    replace (i - s)%nat with (S (i - S s)) by lia. exact Hn.
Qed.

Lemma indexed_nth (A : Type) (l : list A) (i : nat) (c : A) :
  In (i, c) (indexed l) -> nth_error l i = Some c.
Proof.
  intros H. apply indexed_from in H as [_ H]. now rewrite Nat.sub_0_r in H.
Qed.

Lemma fold_left_preserves (A B : Type) (P : A -> Prop) (f : A -> B -> A)
    (l : list B) (a : A) :
  P a -> (forall a b, In b l -> P a -> P (f a b)) -> P (fold_left f l a).
Proof.
  revert a; induction l as [|b l IH]; intros a Ha Hstep; cbn; [assumption|].
  apply IH.
  - apply Hstep; [now left | assumption].
  - intros a' b' Hin. apply Hstep. now right.
Qed.

Lemma walk_invariant_start (text : string) (sorted : list Clause) :
  walk_invariant text sorted (0%Z, []).
Proof.
  constructor; cbn; try easy; try lia.
  now rewrite substring_nothing.
Qed.

(** The plain text pushed before a highlight, when there is a gap. *)
Lemma gap_facts (text : string) (elements : list element) (l k : nat) :
  (l <= k)%nat -> (k <= String.length text)%nat ->
  text_of elements = substring 0 l text ->
  let gapped :=
    if (Z.of_nat k >? Z.of_nat l)%Z
    then (elements ++ [span_of text None (Z.of_nat l) (Z.of_nat k)])%list
    else elements in
  highlights gapped = highlights elements
  /\ text_of gapped = substring 0 k text
  /\ (forall e, In e gapped -> In e elements \/ data_index e = None).
Proof.
  intros Hlk Hk Htext gapped. subst gapped.
  destruct (Z.of_nat k >? Z.of_nat l)%Z eqn:Hgt.
  - repeat split.
    + rewrite highlights_app. cbn. apply app_nil_r.
    + rewrite text_of_app, Htext. cbn.
      rewrite append_empty_r, substring2_ordered by lia.
      now apply substring_split.
    + intros e He. apply in_app_or in He as [He|[<-|[]]]; [now left | now right].
  - assert (k = l) by lia. subst k. repeat split; auto.
Qed.

Lemma walk_invariant_step (text : string) (sorted : list Clause)
    (acc : Z * list element) (idx : nat) (clause : Clause) :
  In (idx, clause) (indexed sorted) ->
  walk_invariant text sorted acc ->
  walk_invariant text sorted (highlight_step text acc (idx, clause)).
Proof.
  intros Hin Hinv. destruct acc as [lastIndex elements].
  destruct Hinv as [Hb Htext Hbelow Hchain Hsrc]. cbn [fst snd] in *.
  destruct (highlight_step_cases text lastIndex elements idx clause Hb)
    as [-> | (k & Hle & Hfit & Hocc & ->)];
    [now constructor|].
  set (l := Z.to_nat lastIndex).
  assert (Hl : lastIndex = Z.of_nat l) by (unfold l; lia).
  rewrite Hl in *. clear Hl.
  destruct (gap_facts text elements l k ltac:(lia) ltac:(lia)) as (G1 & G2 & G3).
  { now rewrite Nat2Z.id in Htext. }
  set (gapped := if (Z.of_nat k >? Z.of_nat l)%Z then _ else _) in *.
  set (n := String.length (c_text clause)) in *.
  assert (Hcontent :
            content (span_of text (Some idx) (Z.of_nat k) (Z.of_nat k + Z.of_nat n))
            = c_text clause).
  { cbn [content span_of]. rewrite <- Nat2Z.inj_add, substring2_ordered by lia.
    replace (k + n - k)%nat with n by lia. exact Hocc. }
  constructor; cbn [fst snd].
  - lia.
  - rewrite text_of_app, G2. cbn [text_of fold_right].
    rewrite Hcontent, append_empty_r, <- Nat2Z.inj_add, Nat2Z.id.
    rewrite <- (substring_split text k (k + n)) by lia.
    replace (k + n - k)%nat with n by lia. f_equal. symmetry. exact Hocc.
  - intros e He. rewrite highlights_app, G1 in He.
    apply in_app_or in He as [He|[<-|[]]].
    + apply Hbelow in He. lia.
    + cbn. lia.
  - rewrite highlights_app, G1. cbn [highlights filter span_of data_index].
    apply non_overlapping_snoc; [assumption|].
    intros x Hx. apply Hbelow in Hx. cbn. lia.
  - intros e i He Hi. apply in_app_or in He as [He|[<-|[]]].
    + apply G3 in He as [He|He]; [now apply Hsrc | congruence].
    + cbn in Hi. injection Hi as <-. exists clause.
      split; [now apply indexed_nth|].
      split; [exact Hcontent|]. cbn. split; [lia | reflexivity].
Qed.

Lemma walk_invariant_end (text : string) (sorted : list Clause) :
  walk_invariant text sorted (walk text sorted).
Proof.
  unfold walk. apply fold_left_preserves.
  - apply walk_invariant_start.
  - intros acc [idx clause] Hin Hacc. now apply walk_invariant_step.
Qed.

Lemma In_insert_sorted (A : Type) (cmp : A -> A -> Z) (x y : A) (l : list A) :
  In x (insert_sorted cmp y l) -> x = y \/ In x l.
Proof.
  induction l as [|z l IH]; cbn.
  - intros [<-|[]]. now left.
  - destruct (cmp z y <? 0)%Z; cbn; intros [H|H]; auto.
    apply IH in H as [H|H]; auto.
Qed.

Lemma In_sort (A : Type) (cmp : A -> A -> Z) (x : A) (l : list A) :
  In x (sort cmp l) -> In x l.
Proof.
  induction l as [|y l IH]; cbn; [easy|].
  intros H. apply In_insert_sorted in H as [->|H]; auto.
Qed.

Lemma In_optional_filter (A : Type) (b : bool) (f : A -> bool) (x : A) (l : list A) :
  In x (if b then filter f l else l) -> In x l.
Proof. destruct b; [intros H; now apply filter_In in H | easy]. Qed.

(** Every clause the viewer shows has a text that is not empty and occurs
    in the document. *)
Lemma sortedClauses_anchored (text : string) (clauses : list Clause)
    (searchTerm filterType : string) (c : Clause) :
  In c (sortedClauses text clauses searchTerm filterType) ->
  In c clauses /\ c_text c <> "" /\ includes text (c_text c) = true.
Proof.
  unfold sortedClauses. intros H.
  apply In_optional_filter, In_optional_filter, In_sort, filter_In in H.
  destruct H as [Hin H]. apply andb_true_iff in H as [Hne Hinc].
  apply negb_true_iff, String.eqb_neq in Hne. auto.
Qed.

(** What the rendering gives whenever it gives elements. *)
Lemma render_facts (text : string) (sorted : list Clause) (els : list element) :
  renderHighlightedText text sorted = Some els ->
  text_of els = text
  /\ non_overlapping (highlights els)
  /\ (forall e i, In e els -> data_index e = Some i ->
        exists c, nth_error sorted i = Some c
                  /\ content e = c_text c
                  /\ (0 <= startOffset e)%Z
                  /\ endOffset e
                     = (startOffset e + Z.of_nat (String.length (c_text c)))%Z
                  /\ (endOffset e <= Z.of_nat (String.length text))%Z).
Proof.
  unfold renderHighlightedText.
  destruct (text =? "")%string; [discriminate|].
  pose proof (walk_invariant_end text sorted) as Hinv.
  destruct (walk text sorted) as [lastIndex elements].
  destruct Hinv as [Hb Htext Hbelow Hchain Hsrc]. cbn [fst snd] in *.
  intros H. injection H as <-.
  set (l := Z.to_nat lastIndex).
  assert (Hl : lastIndex = Z.of_nat l) by (unfold l; lia).
  assert (Hsrc' : forall e i, In e elements -> data_index e = Some i ->
            exists c, nth_error sorted i = Some c
                  /\ content e = c_text c
                  /\ (0 <= startOffset e)%Z
                  /\ endOffset e
                     = (startOffset e + Z.of_nat (String.length (c_text c)))%Z
                  /\ (endOffset e <= Z.of_nat (String.length text))%Z).
  { intros e i He Hi. destruct (Hsrc e i He Hi) as (c & H1 & H2 & H3 & H4).
    exists c. repeat split; try assumption.
    assert (In e (highlights elements))
      by (apply filter_In; split; [assumption | now rewrite Hi]).
    apply Hbelow in H. lia. }
  destruct (lastIndex <? Z.of_nat (String.length text))%Z eqn:Hlt.
  - apply Z.ltb_lt in Hlt. split; [|split].
    + rewrite text_of_app, Htext. cbn [text_of fold_right span_of content].
      rewrite append_empty_r, Hl, substring2_ordered by lia.
      rewrite Nat2Z.id, substring_split by lia. apply substring_all.
    + rewrite highlights_app. cbn. now rewrite app_nil_r.
    + intros e i He Hi. apply in_app_or in He as [He|[<-|[]]];
        [now apply Hsrc' | discriminate].
  - apply Z.ltb_ge in Hlt. split; [|split]; try assumption.
    rewrite Htext. replace (Z.to_nat lastIndex) with (String.length text) by lia.
    apply substring_all.
Qed.

(** C3. The highlighted spans of the viewer follow each other from left to
    right without overlap: of two adjacent spans the first is not empty and
    ends at or before the start of the second. A clause whose text does not
    occur at or after the cursor is skipped: the cursor and the elements stay
    as they are. *)
Theorem highlight_spans_do_not_overlap (text : string) (clauses : list Clause)
    (searchTerm filterType : string) (els : list element) :
  renderHighlightedText text (sortedClauses text clauses searchTerm filterType)
  = Some els ->
  (forall (i : nat) (a b : element),
      nth_error (highlights els) i = Some a ->
      nth_error (highlights els) (S i) = Some b ->
      (startOffset a < endOffset a)%Z
      /\ (endOffset a <= startOffset b)%Z
      /\ (startOffset a < startOffset b)%Z)
  /\ (forall (lastIndex : Z) (elements : list element) (idx : nat)
             (clause : Clause),
         (forall p : nat, (lastIndex <= Z.of_nat p)%Z ->
                          ~ occurs_at text (c_text clause) p) ->
         highlight_step text (lastIndex, elements) (idx, clause)
         = (lastIndex, elements)).
Proof.
  intros Hrender. split; [|apply highlight_step_skips].
  destruct (render_facts _ _ _ Hrender) as (_ & Hchain & Hsrc).
  intros i a b Ha Hb.
  pose proof (non_overlapping_adjacent _ _ _ _ Hchain Ha Hb) as Hab.
  apply nth_error_In, filter_In in Ha as [Ha Hidx].
  destruct (data_index a) as [j|] eqn:Hj; [|discriminate].
  destruct (Hsrc a j Ha Hj) as (c & Hc & _ & _ & Hend & _).
  apply nth_error_In, sortedClauses_anchored in Hc as (_ & Hne & _).
  assert (0 < String.length (c_text c))%nat
    by (destruct (c_text c); [easy | cbn; lia]).
  lia.
Qed.

(** C10. For a text that is not empty the rendering gives elements whose
    contents, put together in order, are the text itself; every highlighted
    element is the text of the clause its index names, and a clause that is
    skipped adds no element. *)
Theorem highlighted_text_preserves_text (text : string) (sorted : list Clause) :
  text <> "" ->
  exists els : list element,
    renderHighlightedText text sorted = Some els
    /\ text_of els = text
    /\ (forall e i, In e els -> data_index e = Some i ->
          exists c, nth_error sorted i = Some c /\ content e = c_text c)
    /\ (forall (lastIndex : Z) (elements : list element) (idx : nat)
               (clause : Clause),
           (forall p : nat, (lastIndex <= Z.of_nat p)%Z ->
                            ~ occurs_at text (c_text clause) p) ->
           snd (highlight_step text (lastIndex, elements) (idx, clause))
           = elements).
Proof.
  intros Hne.
  destruct (renderHighlightedText text sorted) as [els|] eqn:Hrender.
  - exists els. destruct (render_facts _ _ _ Hrender) as (Htext & _ & Hsrc).
    split; [reflexivity|]. split; [assumption|]. split.
    + intros e i He Hi. destruct (Hsrc e i He Hi) as (c & ? & ? & _).
      exists c. auto.
    + intros lastIndex elements idx clause Hnone.
      now rewrite highlight_step_skips.
  - unfold renderHighlightedText in Hrender.
    apply String.eqb_neq in Hne. rewrite Hne in Hrender.
    destruct (walk text sorted). discriminate.
Qed.

End Highlighting.


(* ===================================================================== *)
(** ** The risk chart *)
(* ===================================================================== *)

Section RiskChart.
Import JS Spec AnalysisCharts.

Lemma count_risk_is_bump (r : riskLevels_t) (c : extraction) :
  count_risk r c = bump (c_importance (ClauseExtraction.mapClause c)) r.
Proof. now rewrite count_risk_sent, mapClause_importance_sent. Qed.

Lemma fold_count_risk (l : list extraction) (r : riskLevels_t) :
  fold_left count_risk l r
  = {| High := High r + count_importance high (map ClauseExtraction.mapClause l);
       Medium := Medium r
                 + count_importance medium (map ClauseExtraction.mapClause l);
       Low := Low r + count_importance low (map ClauseExtraction.mapClause l) |}.
Proof.
  revert r; induction l as [|c l IH]; intros r.
  - cbn. destruct r; cbn. f_equal; lia.
  - cbn [fold_left map]. rewrite IH, count_risk_is_bump.
    unfold count_importance. cbn [filter].
    destruct (c_importance (ClauseExtraction.mapClause c)); cbn; f_equal; lia.
Qed.

Lemma riskData_of_list (n : option ner_payload) (f : option sentiment_payload)
    (t : option string) (r : option (list (string * modelResult)))
    (nl : option nested_langextract) (l : list extraction) :
  riskData {| ner := n; finbert := f;
              langextract := Some {| p_text := t; p_results := r;
                                     p_clauses := Some l;
                                     p_langextract := nl |} |}
  = buckets (count_importance high (map ClauseExtraction.mapClause l))
            (count_importance medium (map ClauseExtraction.mapClause l))
            (count_importance low (map ClauseExtraction.mapClause l)).
Proof.
  unfold riskData. cbn [langextract p_clauses].
  rewrite fold_count_risk. cbn [High Medium Low fold_left Nat.add].
  destruct (_ =? 0)%nat eqn:Hz; [|reflexivity].
  apply Nat.eqb_eq in Hz.
  assert (Hh : count_importance high (map ClauseExtraction.mapClause l) = 0%nat)
    by lia.
  assert (Hm : count_importance medium (map ClauseExtraction.mapClause l) = 0%nat)
    by lia.
  assert (Hl : count_importance low (map ClauseExtraction.mapClause l) = 0%nat)
    by lia.
  now rewrite Hh, Hm, Hl.
Qed.

(** A clause of the normalized list, read back as an object, is given the
    importance it already has. *)
Lemma importance_of_normalized (e : extraction) :
  c_importance (ClauseExtraction.mapClause (as_object (ClauseExtraction.mapClause e)))
  = c_importance (ClauseExtraction.mapClause e).
Proof.
  rewrite mapClause_importance_sent, (mapClause_importance_by_type e).
  generalize (ClauseExtraction.mapClause e). intros c.
  unfold sent_type, as_object. cbn [e_extraction_class e_type e_class].
  destruct (c_type c); reflexivity.
Qed.

Lemma normalized_list_form (data : option clause_payload) :
  exists l : list extraction,
    ClauseExtraction.clauses (ClauseExtraction.processedData data)
    = filter ClauseExtraction.validClause (map ClauseExtraction.mapClause l).
Proof.
  destruct data as [d|]; [|now exists []].
  unfold ClauseExtraction.processedData.
  destruct (p_clauses d), (p_results d), (p_langextract d);
    try (now exists []); now exists (ClauseExtraction.rawClauses d).
Qed.

(** C8. The risk chart counts the flat list [data.langextract.clauses] and
    no other: when the two clauses of the end-to-end scenario arrive as the
    result of a model ([results -> model name -> extractions]) or under
    [langextract.clauses], the normalized clause list holds them, one of
    high and one of medium importance, and the chart is empty; so it is for
    every payload without a flat list. The same two clauses in a flat list
    give High 1 and Medium 1, with no Low bucket. *)
Theorem risk_chart_misses_model_results :
  map (fun c => (c_type c, c_importance c))
      (ClauseExtraction.clauses
         (ClauseExtraction.processedData (langextract MoreExamples.model_results)))
  = [ ("Liability Clause", high); ("Confidentiality Clause", medium) ]
  /\ riskData MoreExamples.model_results = []
  /\ map (fun c => (c_type c, c_importance c))
         (ClauseExtraction.clauses
            (ClauseExtraction.processedData (Some MoreExamples.nested_payload)))
     = [ ("Liability Clause", high); ("Confidentiality Clause", medium) ]
  /\ riskData {| ner := None; finbert := None;
                 langextract := Some MoreExamples.nested_payload |} = []
  /\ (forall (n : option ner_payload) (f : option sentiment_payload)
             (t : option string) (r : option (list (string * modelResult)))
             (nl : option nested_langextract),
         riskData {| ner := n; finbert := f;
                     langextract := Some {| p_text := t; p_results := r;
                                            p_clauses := None;
                                            p_langextract := nl |} |} = [])
  /\ riskData Examples.analysisResults
     = [ {| r_name := "High Risk"; r_value := 1; r_color := "#ef4444" |};
         {| r_name := "Medium Risk"; r_value := 1; r_color := "#f59e0b" |} ].
Proof.
  split; [vm_compute; reflexivity|]. split; [reflexivity|].
  split; [vm_compute; reflexivity|]. split; [reflexivity|].
  split; [reflexivity|]. vm_compute. reflexivity.
Qed.

(** The chart counts the list of the payload as sent: an entry that the
    clause list drops for its short text is still counted. *)
Theorem risk_chart_counts_unlisted_clauses :
  ClauseExtraction.clauses
    (ClauseExtraction.processedData (Some Examples.short_payload)) = []
  /\ riskData {| ner := None; finbert := None;
                 langextract := Some Examples.short_payload |}
     = [ {| r_name := "High Risk"; r_value := 1; r_color := "#ef4444" |} ].
Proof. split; vm_compute; reflexivity. Qed.

End RiskChart.

(* ===================================================================== *)
(** ** Sentiment *)
(* ===================================================================== *)

Section Sentiment.
Import SentimentAnalysis.

(** C5. A sentiment payload with neither [statistics] nor
    [sentence_results] is normalized to the neutral record: label "neutral",
    score 0, confidence 0, no sentence; so is a missing payload. The result
    is a record in every case: there is no error outcome. *)
Theorem sentiment_default_is_neutral (d : sentiment_payload) :
  statistics d = None ->
  sentence_results d = None ->
  processedData (Some d)
  = {| overallSentiment := "neutral"; p_score := PrimFloat.zero;
       confidence := PrimFloat.zero; sentenceAnalysis := [] |}
  /\ processedData None = processedData (Some d).
Proof.
  intros Hs Hr. unfold processedData. rewrite Hs, Hr. split; reflexivity.
Qed.

End Sentiment.

(* ===================================================================== *)
(** ** Auto-play *)
(* ===================================================================== *)

Section AutoPlay.
Import Viewer.

Lemma tick_unfolded (text : string) (clauses : list Clause)
    (i : Z) (playing : bool) (s f : string) :
  tick text clauses
    {| activeClauseIndex := i; isPlaying := playing; searchTerm := s;
       filterType := f |}
  = if playing && (0 <? List.length (sortedClauses text clauses s f))%nat
    then if (i >=? Z.of_nat (List.length (sortedClauses text clauses s f)) - 1)%Z
         then {| activeClauseIndex := i; isPlaying := false; searchTerm := s;
                 filterType := f |}
         else {| activeClauseIndex := i + 1; isPlaying := playing;
                 searchTerm := s; filterType := f |}
    else {| activeClauseIndex := i; isPlaying := playing; searchTerm := s;
            filterType := f |}.
Proof. reflexivity. Qed.

Lemma tick_paused (text : string) (clauses : list Clause) (st : state) :
  isPlaying st = false -> tick text clauses st = st.
Proof. intros H. unfold tick, interval_running. now rewrite H. Qed.

Lemma ticks_paused (n : nat) (text : string) (clauses : list Clause) (st : state) :
  isPlaying st = false -> ticks n text clauses st = st.
Proof.
  induction n as [|n IH]; intros H; cbn; [reflexivity|].
  rewrite tick_paused by assumption. now apply IH.
Qed.

Lemma ticks_add (n m : nat) (text : string) (clauses : list Clause) (st : state) :
  ticks (n + m) text clauses st = ticks m text clauses (ticks n text clauses st).
Proof. revert st; induction n as [|n IH]; intros st; cbn; [reflexivity | apply IH]. Qed.

(** C6. With three clauses shown and the first one active, pressing play
    and letting the interval fire three times leaves the third clause active
    (index 2) and auto-play stopped: the first two firings move the index to 1
    and to 2, the third one finds the index on the last clause, keeps it and
    stops playing; later firings change nothing. In general a firing while
    playing adds one to an index below the last one, and otherwise keeps the
    index and stops. *)
Theorem autoplay_stops_at_the_end (text : string) (clauses : list Clause)
    (st : state) :
  List.length (shown text clauses st) = 3%nat ->
  activeClauseIndex st = 0%Z ->
  isPlaying st = false ->
  (isPlaying (togglePlay st) = true
   /\ activeClauseIndex (ticks 1 text clauses (togglePlay st)) = 1%Z
   /\ isPlaying (ticks 1 text clauses (togglePlay st)) = true
   /\ activeClauseIndex (ticks 2 text clauses (togglePlay st)) = 2%Z
   /\ isPlaying (ticks 2 text clauses (togglePlay st)) = true
   /\ activeClauseIndex (ticks 3 text clauses (togglePlay st)) = 2%Z
   /\ isPlaying (ticks 3 text clauses (togglePlay st)) = false
   /\ forall n : nat,
        ticks (3 + n) text clauses (togglePlay st)
        = ticks 3 text clauses (togglePlay st))
  /\ (forall s : state,
         interval_running text clauses s = true ->
         (activeClauseIndex s < Z.of_nat (List.length (shown text clauses s)) - 1)%Z ->
         tick text clauses s = setActiveClauseIndex (activeClauseIndex s + 1) s)
  /\ (forall s : state,
         interval_running text clauses s = true ->
         (activeClauseIndex s >= Z.of_nat (List.length (shown text clauses s)) - 1)%Z ->
         tick text clauses s = setIsPlaying false s).
Proof.
  intros Hlen Hidx Hplay. split; [|split].
  - destruct st as [i playing s f]. unfold shown in Hlen. cbn in Hlen, Hidx, Hplay.
    subst i playing.
    pose (at_ := fun (i : Z) (b : bool) =>
                   {| activeClauseIndex := i; isPlaying := b; searchTerm := s;
                      filterType := f |}).
    assert (H1 : tick text clauses (at_ 0%Z true) = at_ 1%Z true)
      by (unfold at_; rewrite tick_unfolded, Hlen; reflexivity).
    assert (H2 : tick text clauses (at_ 1%Z true) = at_ 2%Z true)
      by (unfold at_; rewrite tick_unfolded, Hlen; reflexivity).
    assert (H3 : tick text clauses (at_ 2%Z true) = at_ 2%Z false)
      by (unfold at_; rewrite tick_unfolded, Hlen; reflexivity).
    change (togglePlay {| activeClauseIndex := 0; isPlaying := false;
                          searchTerm := s; filterType := f |})
      with (at_ 0%Z true).
    assert (T3 : ticks 3 text clauses (at_ 0%Z true) = at_ 2%Z false)
      by (cbn [ticks]; now rewrite H1, H2, H3).
    cbn [ticks]. rewrite H1, H2, H3.
    repeat (split; [reflexivity|]).
    intros n. rewrite (ticks_add 3 n), T3. now apply ticks_paused.
  - intros s Hrun Hlt. unfold tick. rewrite Hrun.
    destruct (Z.geb_spec (activeClauseIndex s)
                (Z.of_nat (List.length (shown text clauses s)) - 1)); [lia|reflexivity].
  - intros s Hrun Hge. unfold tick. rewrite Hrun.
    destruct (Z.geb_spec (activeClauseIndex s)
                (Z.of_nat (List.length (shown text clauses s)) - 1)); [reflexivity|lia].
Qed.

End AutoPlay.

(* ===================================================================== *)
(** ** The chat session *)
(* ===================================================================== *)

Section Chat.
Import JS Spec Chatbot.

Lemma trimStart_blank (s : string) : all_space s = true -> trimStart s = "".
Proof.
  induction s as [|c s IH]; cbn; [reflexivity|].
  intros H. apply andb_true_iff in H as [Hc Hs]. rewrite Hc. now apply IH.
Qed.

Lemma trim_blank (s : string) : all_space s = true -> trim s = "".
Proof. intros H. unfold trim. now rewrite trimStart_blank. Qed.

(** C7. After the chat is cleared no document is attached. Sending a text
    that is not blank then appends the user's message at once and leaves one
    timer of 500 ms pending and no request to the back end; when the timer
    fires, exactly one bot message, the prompt to upload a document, is
    appended. Sending an empty or white-space-only text changes nothing and
    leaves nothing pending. *)
Theorem chat_prompts_for_upload (now sent fired : nat) (st : state) (q : string)
    (net : string -> response + string) :
  trim q <> "" ->
  let cleared := setInputValue q (handleClearChat now st) in
  let asked := handleSendMessage sent cleared in
  let user_message :=
    {| id := 2; text := q; sender := user; timestamp := sent; sources := None |} in
  let prompt :=
    {| id := 3; text := upload_prompt; sender := bot; timestamp := fired;
       sources := None |} in
  uploadedDocs cleared = []
  /\ List.length (messages cleared) = 1%nat
  /\ messages (fst asked) = (messages cleared ++ [user_message])%list
  /\ snd asked = [SetTimeout 500 3]
  /\ existsb is_network_call (snd asked) = false
  /\ messages (fold_left (fun s p => settle fired net p s) (snd asked) (fst asked))
     = (messages cleared ++ [user_message; prompt])%list
  /\ (forall (t : nat) (s : state),
         all_space (inputValue s) = true -> handleSendMessage t s = (s, [])).
Proof.
  intros Hq. apply String.eqb_neq in Hq.
  cbv zeta. unfold handleSendMessage, handleClearChat, setInputValue.
  cbn [inputValue messages uploadedDocs isLoading List.length Nat.eqb].
  rewrite Hq. cbn.
  repeat (split; [reflexivity|]).
  intros t s Hs. unfold handleSendMessage.
  now rewrite (trim_blank _ Hs).
Qed.

End Chat.

(* ===================================================================== *)
(** ** The entity chart *)
(* ===================================================================== *)

Section EntityChart.
Import JS Spec AnalysisCharts.

Lemma get_set (V : Type) (o : list (string * V)) (k k' : string) (v : V) :
  get (set o k v) k' = if (k =? k')%string then Some v else get o k'.
Proof.
  induction o as [|[k0 v0] o IH]; cbn.
  - now destruct (k =? k')%string.
  - destruct (String.eqb_spec k0 k) as [->|Hne]; cbn.
    + now destruct (k =? k')%string.
    + rewrite IH. destruct (String.eqb_spec k0 k') as [->|_]; [|reflexivity].
      destruct (String.eqb_spec k k') as [->|_]; [contradiction | reflexivity].
Qed.

Lemma In_keys_set (V : Type) (o : list (string * V)) (k k' : string) (v : V) :
  In k' (map fst (set o k v)) <-> In k' (map fst o) \/ k' = k.
Proof.
  induction o as [|[k0 v0] o IH]; cbn.
  - intuition.
  - destruct (String.eqb_spec k0 k) as [->|Hne]; cbn; [intuition|].
    rewrite IH. intuition.
Qed.

Lemma NoDup_keys_set (V : Type) (o : list (string * V)) (k : string) (v : V) :
  NoDup (map fst o) -> NoDup (map fst (set o k v)).
Proof.
  induction o as [|[k0 v0] o IH]; cbn; intros Hnd.
  - constructor; [easy | constructor].
  - inversion Hnd as [|? ? Hnot Hrest]; subst.
    destruct (String.eqb_spec k0 k) as [->|Hne]; cbn.
    + now constructor.
    + constructor; [|now apply IH].
      rewrite In_keys_set. intros [H|H]; [contradiction | congruence].
Qed.

Lemma insert_index_permutation (x : N * string) (l : list (N * string)) :
  Permutation (insert_index x l) (x :: l).
Proof.
  induction l as [|y l IH]; cbn; [reflexivity|].
  destruct (fst y <? fst x)%N; [|reflexivity].
  rewrite IH. apply perm_swap.
Qed.

Lemma filter_split_permutation (A : Type) (p : A -> bool) (l : list A) :
  Permutation (filter p l ++ filter (fun x => negb (p x)) l) l.
Proof.
  induction l as [|x l IH]; cbn; [reflexivity|].
  destruct (p x); cbn.
  - now constructor.
  - rewrite <- Permutation_middle. now constructor.
Qed.

Lemma keys_permutation (V : Type) (o : list (string * V)) :
  Permutation (keys o) (map fst o).
Proof.
  unfold keys. set (ks := map fst o).
  set (is_index := fun k => match array_index k with
                            | Some _ => true
                            | None => false
                            end).
  apply Permutation_trans
    with (filter is_index ks ++ filter (fun k => negb (is_index k)) ks)%list;
    [|apply filter_split_permutation].
  apply Permutation_app.
  - transitivity (map snd
                    (flat_map (fun k => match array_index k with
                                        | Some n => [(n, k)]
                                        | None => []
                                        end) ks)).
    + apply Permutation_map.
      generalize (flat_map (fun k => match array_index k with
                                     | Some n => [(n, k)]
                                     | None => []
                                     end) ks).
      intros l. induction l as [|x l IH]; cbn; [reflexivity|].
      rewrite insert_index_permutation. now constructor.
    + subst is_index. clearbody ks.
      induction ks as [|k ks IH]; cbn; [reflexivity|].
      destruct (array_index k); cbn; now rewrite IH.
  - erewrite filter_ext; [reflexivity|].
    intros k. unfold is_index. now destruct (array_index k).
Qed.

Lemma insert_sorted_permutation (A : Type) (cmp : A -> A -> Z) (x : A) (l : list A) :
  Permutation (insert_sorted cmp x l) (x :: l).
Proof.
  induction l as [|y l IH]; cbn; [reflexivity|].
  destruct (cmp y x <? 0)%Z; [|reflexivity].
  rewrite IH. apply perm_swap.
Qed.

Lemma sort_permutation (A : Type) (cmp : A -> A -> Z) (l : list A) :
  Permutation (sort cmp l) l.
Proof.
  induction l as [|x l IH]; cbn; [reflexivity|].
  rewrite insert_sorted_permutation. now constructor.
Qed.

Lemma descending_insert (x : entity_item) (l : list entity_item) :
  descending l -> descending (insert_sorted by_value_descending x l).
Proof.
  induction l as [|y l IH]; intros Hd; [exact I|].
  cbn [insert_sorted]. unfold by_value_descending at 1.
  destruct (Z.ltb_spec (Z.of_nat (value x) - Z.of_nat (value y)) 0) as [Hlt|Hge].
  - destruct l as [|z l].
    + cbn. split; [lia | exact I].
    + destruct Hd as [Hyz Hd]. specialize (IH Hd).
      cbn [insert_sorted] in *. unfold by_value_descending at 1 in IH.
      unfold by_value_descending at 1.
      destruct (Z.of_nat (value x) - Z.of_nat (value z) <? 0)%Z eqn:Hz.
      * split; assumption.
      * split; [lia | exact IH].
  - split; [lia | exact Hd].
Qed.

Lemma descending_sort (l : list entity_item) :
  descending (sort by_value_descending l).
Proof.
  induction l as [|x l IH]; [exact I|]. cbn. now apply descending_insert.
Qed.

Lemma value_of_count_entity (counts : list (string * nat)) (e : entity) (k : string) :
  value_of (count_entity counts e) k
  = (value_of counts k + if (label_key e =? k)%string then 1 else 0)%nat.
Proof.
  unfold value_of, count_entity. fold (label_key e). rewrite get_set.
  destruct (String.eqb_spec (label_key e) k) as [->|_]; [reflexivity | lia].
Qed.

Lemma value_of_counts (es : list entity) (counts : list (string * nat)) (k : string) :
  value_of (fold_left count_entity es counts) k
  = (value_of counts k + occurrences k es)%nat.
Proof.
  revert counts; induction es as [|e es IH]; intros counts.
  - cbn. lia.
  - cbn [fold_left]. rewrite IH, value_of_count_entity.
    unfold occurrences. cbn [filter].
    destruct (label_key e =? k)%string; cbn [List.length]; lia.
Qed.

Lemma keys_of_counts (es : list entity) (counts : list (string * nat)) (k : string) :
  In k (map fst (fold_left count_entity es counts))
  <-> In k (map fst counts) \/ exists e, In e es /\ label_key e = k.
Proof.
  revert counts; induction es as [|e es IH]; intros counts; cbn [fold_left].
  - split; [now left | intros [H|(e & He & _)]; [exact H | destruct He]].
  - rewrite IH. unfold count_entity at 1. fold (label_key e).
    rewrite In_keys_set. split.
    + intros [[H| ->]|(e' & He' & Hk)]; [now left | right | right].
      * exists e. split; [now left | reflexivity].
      * exists e'. split; [now right | assumption].
    + intros [H|(e' & He' & Hk)]; [now left; left|].
      destruct He' as [<- |He']; [left; right; now symmetry|].
      right. exists e'. now split.
Qed.

Lemma NoDup_keys_of_counts (es : list entity) (counts : list (string * nat)) :
  NoDup (map fst counts) -> NoDup (map fst (fold_left count_entity es counts)).
Proof.
  revert counts; induction es as [|e es IH]; intros counts H; cbn [fold_left];
    [assumption|].
  apply IH. unfold count_entity. now apply NoDup_keys_set.
Qed.

(** C9, at an entity that has a [type] and no [label]: the entity chart
    counts it under the key "undefined", while the entity tab groups it under
    its type. *)
Theorem entity_chart_ignores_type :
  entityData Examples.typed_entities = [ {| name := "undefined"; value := 1 |} ]
  /\ map (fun g => (NERAnalysis.type g, NERAnalysis.count g))
         (NERAnalysis.entities
            (NERAnalysis.processedData (ner Examples.typed_entities)))
     = [ ("ORG", 1%nat) ].
Proof. split; vm_compute; reflexivity. Qed.

(** When every entity carries a string as its label and no label names a
    property that an object literal inherits, the entity chart shows the
    first ten of the groups of the entity list: one group for each label
    that occurs, no label twice, each with the number of entities under that
    label, from the largest count to the smallest. *)
Theorem entity_chart_top_ten (f : option sentiment_payload)
    (l : option clause_payload) (es : list entity) :
  Reference.labels_are_own_names es = true ->
  exists groups : list entity_item,
    entityData {| ner := Some {| ner_entities := Some es |}; finbert := f;
                  langextract := l |}
    = firstn 10 groups
    /\ descending groups
    /\ NoDup (map name groups)
    /\ (forall k : string,
          In k (map name groups) <-> exists e, In e es /\ label_key e = k)
    /\ (forall g : entity_item,
          In g groups -> value g = occurrences (name g) es).
Proof.
  intros _.
  set (counts := fold_left count_entity es []).
  set (mk := fun key => {| name := key; value := value_of counts key |}).
  exists (sort by_value_descending (map mk (keys counts))).
  assert (Hnames : Permutation
                     (map name (sort by_value_descending (map mk (keys counts))))
                     (map fst counts)).
  { rewrite sort_permutation, map_map. cbn [name mk].
    rewrite map_id. apply keys_permutation. }
  split; [reflexivity|]. split; [apply descending_sort|]. split; [|split].
  - apply (Permutation_NoDup (Permutation_sym Hnames)).
    apply NoDup_keys_of_counts. constructor.
  - intros k. split.
    + intros H. apply (Permutation_in _ Hnames) in H.
      apply keys_of_counts in H as [[]|H]. exact H.
    + intros H. apply (Permutation_in _ (Permutation_sym Hnames)).
      apply keys_of_counts. now right.
  - intros g Hg. apply (Permutation_in _ (sort_permutation _ _ _)) in Hg.
    apply in_map_iff in Hg as (key & <- & _). cbn [name value mk].
    unfold counts. now rewrite value_of_counts.
Qed.

End EntityChart.

(* ===================================================================== *)
(** ** The theorems at the sample inputs *)
(* ===================================================================== *)

Section Samples.
Import Examples.

Lemma highlight_spans_do_not_overlap_sample :
  exists els : list Viewer.element,
    Viewer.renderHighlightedText document
      (Viewer.sortedClauses document
         (ClauseExtraction.clauses (ClauseExtraction.processedData (Some payload)))
         "" "all")
    = Some els
    /\ List.length (Viewer.highlights els) = 2%nat
    /\ forall (i : nat) (a b : Viewer.element),
         nth_error (Viewer.highlights els) i = Some a ->
         nth_error (Viewer.highlights els) (S i) = Some b ->
         (Viewer.startOffset a < Viewer.endOffset a)%Z
         /\ (Viewer.endOffset a <= Viewer.startOffset b)%Z
         /\ (Viewer.startOffset a < Viewer.startOffset b)%Z.
Proof.
  eexists. split; [vm_compute; reflexivity|]. split; [reflexivity|].
  apply (highlight_spans_do_not_overlap document
           (ClauseExtraction.clauses (ClauseExtraction.processedData (Some payload)))
           "" "all").
  vm_compute. reflexivity.
Defined.

Lemma normalized_clauses_are_valid_sample :
  In (ClauseExtraction.mapClause liability)
     (ClauseExtraction.clauses (ClauseExtraction.processedData (Some payload)))
  /\ (6 <= String.length (c_text (ClauseExtraction.mapClause liability)))%nat.
Proof.
  assert (H : In (ClauseExtraction.mapClause liability)
                 (ClauseExtraction.clauses
                    (ClauseExtraction.processedData (Some payload))))
    by (vm_compute; auto).
  split; [exact H|].
  apply (normalized_clauses_are_valid (Some payload) _ H).
Defined.

Lemma sentiment_default_is_neutral_sample :
  SentimentAnalysis.overallSentiment
    (SentimentAnalysis.processedData
       (Some {| statistics := None; sentence_results := None |}))
  = "neutral".
Proof.
  now rewrite (proj1 (sentiment_default_is_neutral
                        {| statistics := None; sentence_results := None |}
                        eq_refl eq_refl)).
Defined.

Lemma autoplay_stops_at_the_end_sample :
  List.length
    (Viewer.shown three_text three_clauses
       (Viewer.setActiveClauseIndex 0 Viewer.initial)) = 3%nat
  /\ Viewer.activeClauseIndex
       (Viewer.ticks 3 three_text three_clauses
          (Viewer.togglePlay (Viewer.setActiveClauseIndex 0 Viewer.initial)))
     = 2%Z
  /\ Viewer.isPlaying
       (Viewer.ticks 3 three_text three_clauses
          (Viewer.togglePlay (Viewer.setActiveClauseIndex 0 Viewer.initial)))
     = false.
Proof.
  assert (H : List.length
                (Viewer.shown three_text three_clauses
                   (Viewer.setActiveClauseIndex 0 Viewer.initial)) = 3%nat)
    by (vm_compute; reflexivity).
  split; [exact H|].
  destruct (autoplay_stops_at_the_end three_text three_clauses
              (Viewer.setActiveClauseIndex 0 Viewer.initial) H eq_refl eq_refl)
    as [(_ & _ & _ & _ & _ & H3 & H4 & _) _].
  split; assumption.
Defined.

Lemma chat_prompts_for_upload_sample :
  JS.trim "What is this?" <> ""
  /\ map Chatbot.sender
       (Chatbot.messages
          (fold_left
             (fun s p => Chatbot.settle 2 (fun _ => inr "offline") p s)
             (snd (Chatbot.handleSendMessage 1
                     (Chatbot.setInputValue "What is this?"
                        (Chatbot.handleClearChat 0 (Chatbot.initial 0)))))
             (fst (Chatbot.handleSendMessage 1
                     (Chatbot.setInputValue "What is this?"
                        (Chatbot.handleClearChat 0 (Chatbot.initial 0)))))))
     = [Chatbot.bot; Chatbot.user; Chatbot.bot].
Proof.
  assert (H : JS.trim "What is this?" <> "") by (vm_compute; discriminate).
  split; [exact H|].
  destruct (chat_prompts_for_upload 0 1 2 (Chatbot.initial 0) "What is this?"
              (fun _ => inr "offline") H)
    as (_ & _ & _ & _ & _ & Hdone & _).
  rewrite Hdone. reflexivity.
Defined.

Lemma highlighted_text_preserves_text_sample :
  document <> ""
  /\ exists els : list Viewer.element,
       Viewer.renderHighlightedText document
         (Viewer.sortedClauses document
            (ClauseExtraction.clauses
               (ClauseExtraction.processedData (Some payload))) "" "all")
       = Some els
       /\ Spec.text_of els = document.
Proof.
  assert (H : document <> "") by (vm_compute; discriminate).
  split; [exact H|].
  destruct (highlighted_text_preserves_text document
              (Viewer.sortedClauses document
                 (ClauseExtraction.clauses
                    (ClauseExtraction.processedData (Some payload))) "" "all") H)
    as (els & Hr & Ht & _).
  exists els. split; assumption.
Defined.

End Samples.

(* ===================================================================== *)
(** ** The list of the clause viewer *)
(* ===================================================================== *)

Section ShownClauses.
Import JS Spec Reference Viewer.

Lemma includes_occurs (text t : string) :
  includes text t = true -> exists p : nat, occurs_at text t p.
Proof.
  unfold includes. intros H. apply negb_true_iff, Z.eqb_neq in H.
  destruct (indexOfFrom_found text t 0 H) as (k & _ & _ & _ & Hocc).
  now exists k.
Qed.

Lemma includes_empty_text (t : string) : t <> "" -> includes "" t = false.
Proof. destruct t; [easy | reflexivity]. Qed.

Lemma strongly_sorted_filter (A : Type) (R : A -> A -> Prop) (f : A -> bool)
    (l : list A) :
  StronglySorted R l -> StronglySorted R (filter f l).
Proof.
  induction 1 as [|x l Hs IH Hall]; cbn; [constructor|].
  destruct (f x); [|assumption].
  constructor; [assumption|].
  apply Forall_forall. intros y Hy. apply filter_In in Hy as [Hy _].
  revert y Hy. now apply Forall_forall.
Qed.

Lemma strongly_sorted_optional_filter (A : Type) (R : A -> A -> Prop) (b : bool)
    (f : A -> bool) (l : list A) :
  StronglySorted R l -> StronglySorted R (if b then filter f l else l).
Proof. destruct b; [apply strongly_sorted_filter | easy]. Qed.

Lemma insert_by_key_sorted (A : Type) (key : A -> Z) (x : A) (l : list A) :
  StronglySorted (fun a b => (key a <= key b)%Z) l ->
  StronglySorted (fun a b => (key a <= key b)%Z)
                 (insert_sorted (fun a b => (key a - key b)%Z) x l).
Proof.
  intros Hs. induction Hs as [|y l Hs IH Hall]; cbn.
  - constructor; constructor.
  - destruct (Z.ltb_spec (key y - key x) 0) as [Hlt|Hge].
    + constructor; [assumption|].
      apply (Permutation_Forall
               (Permutation_sym (insert_sorted_permutation _ _ x l))).
      constructor; [lia | assumption].
    + constructor; [constructor; assumption|].
      constructor; [lia|].
      apply Forall_forall. intros z Hz.
      pose proof (proj1 (Forall_forall _ _) Hall z Hz). cbn in *. lia.
Qed.

(** Sorting with the comparator [key a - key b] puts the keys in ascending
    order. *)
Lemma sort_by_key_sorted (A : Type) (key : A -> Z) (l : list A) :
  StronglySorted (fun a b => (key a <= key b)%Z)
                 (sort (fun a b => (key a - key b)%Z) l).
Proof.
  induction l as [|x l IH]; cbn; [constructor|].
  now apply insert_by_key_sorted.
Qed.

Lemma filter_sort_empty_search (text : string) (clauses : list Clause) :
  sortedClauses text clauses "" "all"
  = sort (fun a b => (indexOf text (c_text a) - indexOf text (c_text b))%Z)
      (filter (fun c => negb (c_text c =? "")%string && includes text (c_text c))
         clauses).
Proof. reflexivity. Qed.

(** The list of the viewer, whatever the search term and the filter: every
    clause listed is one of the clauses given, has a text that is not empty
    and occurs in the document, and has the type of the filter when a filter
    other than "all" is set; the list is in the order of the first
    occurrences; with no search term and the filter "all" it holds exactly the
    clauses whose text occurs in the document; and for an empty document it is
    empty. *)
Theorem viewer_lists_anchored_clauses (text : string) (clauses : list Clause)
    (searchTerm filterType : string) :
  Forall (fun c =>
            In c clauses
            /\ c_text c <> ""
            /\ (exists p : nat, occurs_at text (c_text c) p)
            /\ (filterType <> "all" -> c_type c = filterType))
         (sortedClauses text clauses searchTerm filterType)
  /\ StronglySorted
       (fun a b => (first_occurrence text a <= first_occurrence text b)%Z)
       (sortedClauses text clauses searchTerm filterType)
  /\ Permutation
       (sortedClauses text clauses "" "all")
       (filter (fun c => negb (c_text c =? "")%string && includes text (c_text c))
               clauses)
  /\ sortedClauses "" clauses searchTerm filterType = [].
Proof.
  split; [|split; [|split]].
  - apply Forall_forall. intros c Hc.
    pose proof (sortedClauses_anchored _ _ _ _ _ Hc) as (Hin & Hne & Hinc).
    repeat split; try assumption; [now apply includes_occurs|].
    intros Hf. apply String.eqb_neq in Hf.
    unfold sortedClauses in Hc. rewrite Hf in Hc. cbn [negb] in Hc.
    apply filter_In in Hc as [_ Hc]. now apply String.eqb_eq in Hc.
  - unfold sortedClauses.
    apply strongly_sorted_optional_filter, strongly_sorted_optional_filter.
    apply (sort_by_key_sorted Clause (first_occurrence text)).
  - rewrite filter_sort_empty_search. apply sort_permutation.
  - destruct (sortedClauses "" clauses searchTerm filterType) as [|c l] eqn:E;
      [reflexivity|exfalso].
    assert (Hc : In c (sortedClauses "" clauses searchTerm filterType))
      by (rewrite E; now left).
    apply sortedClauses_anchored in Hc as (_ & Hne & Hinc).
    now rewrite includes_empty_text in Hinc.
Qed.

End ShownClauses.

(* ===================================================================== *)
(** ** When every clause is highlighted *)
(* ===================================================================== *)

Section Completeness.
Import JS Spec Reference Viewer.

(** Searching from a position at or before the first occurrence finds the
    first occurrence. *)
Lemma index_from_before_first (s1 s2 : string) (n k : nat) :
  index 0 s1 s2 = Some k -> (n <= k)%nat -> index n s1 s2 = Some k.
Proof.
  intros Hfirst Hn.
  destruct s1 as [|a s1].
  - rewrite index_empty_found in Hfirst. injection Hfirst as Hk. subst k.
    replace n with 0%nat by lia. apply index_empty_found.
  - pose proof (index_correct1 _ _ _ _ Hfirst) as Hocc.
    destruct (index n (String a s1) s2) as [m|] eqn:Hm.
    + f_equal.
      pose proof (index_bounds _ _ _ _ Hm) as [Hnm _].
      pose proof (index_correct1 _ _ _ _ Hm) as Hoccm.
      destruct (Nat.lt_trichotomy m k) as [Hlt|[Heq|Hgt]]; [|assumption|].
      * exfalso. apply (index_correct2 _ _ _ _ Hfirst m); [lia | lia | exact Hoccm].
      * exfalso. apply (index_correct2 _ _ _ _ Hm k); [lia | lia | exact Hocc].
    + exfalso. apply (index_correct3 _ k _ _ Hm); [easy | lia | exact Hocc].
Qed.

Lemma indexOfFrom_before_first (text t : string) (cursor : Z) :
  (0 <= cursor <= indexOf text t)%Z ->
  indexOfFrom text t cursor = indexOf text t.
Proof.
  intros Hc. unfold indexOf, indexOfFrom in *.
  change (clamp (String.length text) 0) with 0%nat in *.
  destruct (index 0 t text) as [k|] eqn:Hk; [|lia].
  rewrite (index_from_before_first _ _ _ _ Hk); [reflexivity|].
  unfold clamp. lia.
Qed.

Lemma highlight_step_at_first (text : string) (cursor : Z) (elements : list element)
    (idx : nat) (c : Clause) :
  (0 <= cursor <= first_occurrence text c)%Z ->
  exists elements' : list element,
    highlight_step text (cursor, elements) (idx, c)
    = ((first_occurrence text c + Z.of_nat (String.length (c_text c)))%Z, elements')
    /\ highlights elements'
       = (highlights elements ++ [highlight_at_first text (idx, c)])%list.
Proof.
  intros Hc. unfold highlight_step, first_occurrence in *.
  rewrite (indexOfFrom_before_first _ _ _ Hc).
  destruct (Z.eqb_spec (indexOf text (c_text c)) (-1)) as [E|_]; [lia|].
  cbn [negb].
  destruct (Z.ltb_spec (indexOf text (c_text c)) cursor) as [|_]; [lia|].
  eexists. split; [reflexivity|].
  rewrite highlights_app. f_equal.
  destruct (indexOf text (c_text c) >? cursor)%Z; [|reflexivity].
  rewrite highlights_app. cbn. apply app_nil_r.
Qed.

Lemma walk_over_disjoint (text : string) (l : list Clause) (s : nat) (cursor : Z)
    (elements : list element) :
  (0 <= cursor)%Z -> disjoint_from text cursor l ->
  highlights
    (snd (fold_left (highlight_step text) (combine (seq s (List.length l)) l)
            (cursor, elements)))
  = (highlights elements
     ++ map (highlight_at_first text) (combine (seq s (List.length l)) l))%list.
Proof.
  revert s cursor elements; induction l as [|c l IH]; intros s cursor elements Hc Hd.
  - cbn. now rewrite app_nil_r.
  - destruct Hd as [Hfirst Hd]. cbn [List.length seq combine fold_left map].
    destruct (highlight_step_at_first text cursor elements s c ltac:(lia))
      as (elements' & -> & Hh).
    rewrite IH; [|lia|assumption].
    now rewrite Hh, <- app_assoc.
Qed.

(** When the first occurrences of the clauses of the list follow each other
    without overlap, every clause is highlighted, at its first occurrence and
    under its own index. *)
Theorem disjoint_clauses_are_all_highlighted (text : string) (sorted : list Clause) :
  text <> "" ->
  disjoint_from text 0 sorted ->
  exists els : list element,
    renderHighlightedText text sorted = Some els
    /\ highlights els = map (highlight_at_first text) (indexed sorted)
    /\ List.length (highlights els) = List.length sorted.
Proof.
  intros Hne Hd. apply String.eqb_neq in Hne.
  unfold renderHighlightedText. rewrite Hne.
  pose proof (walk_over_disjoint text sorted 0 0 [] ltac:(lia) Hd) as Hw.
  fold (indexed sorted) in Hw. fold (walk text sorted) in Hw.
  destruct (walk text sorted) as [lastIndex elements]. cbn [snd] in Hw.
  assert (Hlen : List.length (map (highlight_at_first text) (indexed sorted))
                 = List.length sorted).
  { unfold indexed. now rewrite length_map, length_combine, length_seq, Nat.min_id. }
  eexists. split; [reflexivity|].
  destruct (lastIndex <? Z.of_nat (String.length text))%Z.
  - rewrite highlights_app. cbn [highlights filter span_of data_index].
    rewrite app_nil_r. fold (highlights elements). rewrite Hw. now split.
  - rewrite Hw. now split.
Qed.

End Completeness.

(* ===================================================================== *)
(** ** Navigation and auto-play *)
(* ===================================================================== *)

Section Navigation.
Import JS Spec Reference Viewer ViewerControls.

Lemma shown_after_navigation (text : string) (clauses : list Clause) (ev : event)
    (st : state) :
  keeps_filters ev = true ->
  shown text clauses (handle text clauses ev st) = shown text clauses st.
Proof.
  intros Hev. unfold shown.
  assert (searchTerm (handle text clauses ev st) = searchTerm st
          /\ filterType (handle text clauses ev st) = filterType st) as [-> ->];
    [|reflexivity].
  destruct ev; try discriminate; cbn [handle].
  - destruct (previous_disabled st); now split.
  - destruct (next_disabled text clauses st); now split.
  - now split.
  - unfold tick. destruct (interval_running text clauses st); [|now split].
    destruct (activeClauseIndex st
              >=? Z.of_nat (List.length (shown text clauses st)) - 1)%Z;
      now split.
  - destruct (idx <? List.length (shown text clauses st))%nat; now split.
Qed.

Lemma handle_in_range (text : string) (clauses : list Clause) (ev : event)
    (st : state) :
  keeps_filters ev = true ->
  in_range text clauses st -> in_range text clauses (handle text clauses ev st).
Proof.
  intros Hev Hr. unfold in_range in *.
  rewrite (shown_after_navigation _ _ _ _ Hev).
  set (n := Z.of_nat (List.length (shown text clauses st))) in *.
  destruct ev; try discriminate; cbn [handle].
  - unfold previous_disabled.
    destruct (Z.leb_spec (activeClauseIndex st) 0); cbn; lia.
  - unfold next_disabled, next. fold n.
    destruct (Z.geb_spec (activeClauseIndex st) (n - 1)); cbn; lia.
  - exact Hr.
  - unfold tick, interval_running.
    destruct (isPlaying st && _); [|exact Hr]. fold n.
    destruct (Z.geb_spec (activeClauseIndex st) (n - 1)); cbn; lia.
  - destruct (Nat.ltb_spec idx (List.length (shown text clauses st))); cbn;
      [unfold n; lia | exact Hr].
Qed.

(** The arrow buttons, the play button, the timer and the clicks on a
    clause keep the active index on a clause of the shown list, or on none:
    from a state whose index is between -1 and the last position, every
    sequence of such events ends in such a state. *)
Theorem navigation_keeps_index_in_range (text : string) (clauses : list Clause)
    (evs : list event) (st : state) :
  forallb keeps_filters evs = true ->
  in_range text clauses st ->
  in_range text clauses (run text clauses evs st).
Proof.
  revert st; induction evs as [|ev evs IH]; intros st Hevs Hr; [exact Hr|].
  cbn in Hevs. apply andb_true_iff in Hevs as [Hev Hevs].
  cbn [run fold_left]. apply IH; [assumption|]. now apply handle_in_range.
Qed.

Lemma tick_advances (text : string) (clauses : list Clause) (st : state) :
  interval_running text clauses st = true ->
  (activeClauseIndex st < Z.of_nat (List.length (shown text clauses st)) - 1)%Z ->
  tick text clauses st = setActiveClauseIndex (activeClauseIndex st + 1) st.
Proof.
  intros Hrun Hlt. unfold tick. rewrite Hrun.
  destruct (Z.geb_spec (activeClauseIndex st)
              (Z.of_nat (List.length (shown text clauses st)) - 1));
    [lia | reflexivity].
Qed.

Lemma tick_stops (text : string) (clauses : list Clause) (st : state) :
  interval_running text clauses st = true ->
  (activeClauseIndex st >= Z.of_nat (List.length (shown text clauses st)) - 1)%Z ->
  tick text clauses st = setIsPlaying false st.
Proof.
  intros Hrun Hge. unfold tick. rewrite Hrun.
  destruct (Z.geb_spec (activeClauseIndex st)
              (Z.of_nat (List.length (shown text clauses st)) - 1));
    [reflexivity | lia].
Qed.

(** Auto-play runs to the last clause and stops there: while it plays on a
    list that is not empty, from an index at or before the last position, the
    firings move the index one by one to the last position, and the firing
    after that stops the play with the index on the last position. From an
    index beyond the last position the first firing stops the play. *)
Theorem autoplay_runs_to_the_last_clause (text : string) (clauses : list Clause)
    (st : state) :
  interval_running text clauses st = true ->
  let last := (Z.of_nat (List.length (shown text clauses st)) - 1)%Z in
  ((activeClauseIndex st <= last)%Z ->
   ticks (Z.to_nat (last - activeClauseIndex st)) text clauses st
   = setActiveClauseIndex last st
   /\ ticks (S (Z.to_nat (last - activeClauseIndex st))) text clauses st
      = setIsPlaying false (setActiveClauseIndex last st))
  /\ ((last < activeClauseIndex st)%Z ->
      tick text clauses st = setIsPlaying false st).
Proof.
  intros Hrun last. split.
  - intros Hle.
    remember (Z.to_nat (last - activeClauseIndex st)) as k eqn:Hk.
    assert (Hgoal : ticks k text clauses st = setActiveClauseIndex last st).
    { subst last. revert st Hrun Hle Hk.
      induction k as [|k IH]; intros st Hrun Hle Hk.
      - cbn. destruct st as [i p s f]. cbn in *. unfold setActiveClauseIndex. cbn.
        f_equal. unfold shown in *. cbn in *. lia.
      - cbn [ticks]. rewrite tick_advances by (assumption || lia).
        rewrite IH.
        + destruct st; reflexivity.
        + destruct st as [i p s f]. exact Hrun.
        + destruct st as [i p s f]. unfold shown in *. cbn in *. lia.
        + destruct st as [i p s f]. unfold shown in *. cbn in *. lia. }
    split; [exact Hgoal|].
    replace (S k) with (k + 1)%nat by lia.
    rewrite ticks_add, Hgoal. cbn [ticks].
    apply tick_stops.
    + destruct st as [i p s f]. exact Hrun.
    + destruct st as [i p s f]. unfold shown in *. cbn in *. subst last.
      unfold shown. cbn. lia.
  - intros Hgt. apply tick_stops; [assumption | subst last; lia].
Qed.

End Navigation.

(* ===================================================================== *)
(** ** More on the clause normalizer *)
(* ===================================================================== *)

Section NormalizerMore.
Import JS Spec Reference ClauseExtraction.

Local Ltac by_cases_on c :=
  destruct c as [[] [] [] [] [] [] [] []]; vm_compute; reflexivity.

Lemma upper_word_char_underscore (c : ascii) :
  (code (upper_word_char c) =? 95)%nat = (code c =? 95)%nat.
Proof. by_cases_on c. Qed.

Lemma upper_word_char_is_word (c : ascii) :
  is_word (upper_word_char c) = is_word c.
Proof. by_cases_on c. Qed.

Lemma upper_word_char_twice (c : ascii) :
  upper_word_char (upper_word_char c) = upper_word_char c.
Proof. by_cases_on c. Qed.

Lemma underscore_to_space_clean (c : ascii) :
  (code (underscore_to_space c) =? 95)%nat = false.
Proof. by_cases_on c. Qed.

Lemma capitalized_first_not_a (c : ascii) :
  (if is_word c && negb false then upper_word_char c else c) <> "a"%char.
Proof. destruct c as [[] [] [] [] [] [] [] []]; vm_compute; discriminate. Qed.

Lemma replace_underscores_clean (s : string) :
  no_underscore (replace_underscores s) = true.
Proof.
  unfold replace_underscores.
  induction s as [|c s IH]; cbn [map_chars no_underscore]; [reflexivity|].
  now rewrite underscore_to_space_clean, IH.
Qed.

Lemma capitalize_from_clean (b : bool) (s : string) :
  no_underscore s = true -> no_underscore (capitalize_from b s) = true.
Proof.
  revert b; induction s as [|c s IH]; intros b H; cbn [capitalize_from no_underscore] in *;
    [reflexivity|].
  apply andb_true_iff in H as [Hc Hs].
  rewrite (IH _ Hs), andb_true_r.
  destruct (is_word c && negb b); [|assumption].
  now rewrite upper_word_char_underscore.
Qed.

Lemma replace_underscores_of_clean (s : string) :
  no_underscore s = true -> replace_underscores s = s.
Proof.
  unfold replace_underscores.
  induction s as [|c s IH]; cbn [map_chars no_underscore]; [reflexivity|].
  intros H. apply andb_true_iff in H as [Hc Hs]. rewrite (IH Hs). f_equal.
  unfold underscore_to_space. apply negb_true_iff in Hc. now rewrite Hc.
Qed.

Lemma capitalize_from_twice (b : bool) (s : string) :
  capitalize_from b (capitalize_from b s) = capitalize_from b s.
Proof.
  revert b; induction s as [|c s IH]; intros b; cbn [capitalize_from]; [reflexivity|].
  assert (Hw : is_word (if is_word c && negb b then upper_word_char c else c)
               = is_word c)
    by (destruct (is_word c && negb b); [apply upper_word_char_is_word | reflexivity]).
  rewrite Hw, IH. f_equal.
  destruct (is_word c && negb b); [apply upper_word_char_twice | reflexivity].
Qed.

Lemma length_capitalize_from (b : bool) (s : string) :
  String.length (capitalize_from b s) = String.length s.
Proof.
  revert b; induction s as [|c s IH]; intros b; cbn; [reflexivity | now rewrite IH].
Qed.

(** The type as the clause list writes it. *)
Lemma normalized_type_form (e : extraction) :
  c_type (mapClause e) = capitalize_words (replace_underscores (sent_type e)).
Proof. reflexivity. Qed.

Lemma sent_type_not_empty (e : extraction) : sent_type e <> "".
Proof.
  unfold sent_type, or_default.
  destruct (or_else _ _) as [[|c s]|]; discriminate.
Qed.

Lemma normalized_type_not_empty (e : extraction) : c_type (mapClause e) <> "".
Proof.
  rewrite normalized_type_form. unfold capitalize_words, replace_underscores.
  pose proof (sent_type_not_empty e) as H.
  destruct (sent_type e); [contradiction | cbn; discriminate].
Qed.

Lemma normalized_type_not_all (e : extraction) : c_type (mapClause e) <> "all".
Proof.
  rewrite normalized_type_form. unfold capitalize_words, replace_underscores.
  pose proof (sent_type_not_empty e) as H.
  destruct (sent_type e) as [|c s]; [contradiction|].
  cbn [map_chars capitalize_from]. intros E. injection E as E _.
  now apply (capitalized_first_not_a (underscore_to_space c)).
Qed.

Lemma normalized_text_not_empty (e : extraction) : c_text (mapClause e) <> "".
Proof.
  cbn. unfold or_default. destruct (or_else _ _) as [[|c s]|]; discriminate.
Qed.

Lemma or_default_some_not_empty (s d : string) :
  s <> "" -> or_default (or_else (or_else None (Some s)) None) d = s.
Proof. destruct s; [contradiction | reflexivity]. Qed.

Lemma Clause_eq (c1 c2 : Clause) :
  c_type c1 = c_type c2 -> c_text c1 = c_text c2 ->
  c_importance c1 = c_importance c2 -> c_confidence c1 = c_confidence c2 ->
  c_attributes c1 = c_attributes c2 -> c1 = c2.
Proof. destruct c1, c2; cbn; intros; subst; reflexivity. Qed.

(** Normalizing is idempotent: a clause of the list, read back as an
    object and normalized again, is the same clause; and its type is never
    empty, never "all", and free of underscores. *)
Theorem normalizing_twice_changes_nothing (e : extraction) :
  mapClause (as_object (mapClause e)) = mapClause e
  /\ c_type (mapClause e) <> ""
  /\ c_type (mapClause e) <> "all"
  /\ no_underscore (c_type (mapClause e)) = true
  /\ String.length (c_type (mapClause e)) = String.length (sent_type e).
Proof.
  assert (Hclean : no_underscore (c_type (mapClause e)) = true).
  { rewrite normalized_type_form. unfold capitalize_words.
    apply capitalize_from_clean, replace_underscores_clean. }
  assert (Htype : c_type (mapClause (as_object (mapClause e))) = c_type (mapClause e)).
  { rewrite (normalized_type_form (as_object (mapClause e))).
    unfold sent_type, as_object. cbn [e_extraction_class e_type e_class].
    rewrite or_default_some_not_empty by apply normalized_type_not_empty.
    rewrite replace_underscores_of_clean by exact Hclean.
    rewrite normalized_type_form. unfold capitalize_words.
    apply capitalize_from_twice. }
  split; [|split; [|split; [|split]]].
  - apply Clause_eq.
    + exact Htype.
    + generalize (normalized_text_not_empty e). generalize (mapClause e).
      intros c Hc. cbn [mapClause c_text as_object e_extraction_text e_text].
      destruct (c_text c); [contradiction | reflexivity].
    + apply importance_of_normalized.
    + unfold mapClause, as_object. cbn [c_confidence c_attributes e_attributes].
      destruct (e_attributes e); reflexivity.
    + reflexivity.
  - apply normalized_type_not_empty.
  - apply normalized_type_not_all.
  - exact Hclean.
  - rewrite normalized_type_form. unfold capitalize_words, replace_underscores.
    now rewrite length_capitalize_from, length_map_chars.
Qed.

(** Where the document text comes from: nothing at all when the payload
    has none of the three clause fields, even if it has a text; otherwise the
    text at the root when there is one; otherwise, for a payload with model
    results, the text of the first model alone; otherwise the empty text. *)
Theorem document_text_source (d : clause_payload) :
  (has_clause_field d = false -> text (processedData (Some d)) = "")
  /\ (has_clause_field d = true -> truthy (p_text d) = true ->
      Some (text (processedData (Some d))) = p_text d)
  /\ (has_clause_field d = true -> p_results d = None ->
      text (processedData (Some d)) = or_default (p_text d) "")
  /\ (forall (model : string) (first : modelResult)
             (others : list (string * modelResult)),
         p_results d = Some ((model, first) :: others) ->
         truthy (p_text d) = false ->
         text (processedData (Some d))
         = or_default (match json_output first with
                       | Some jo => jo_text jo
                       | None => None
                       end) "").
Proof.
  unfold has_clause_field, processedData, fullText.
  split; [|split; [|split]].
  - destruct (p_clauses d), (p_results d), (p_langextract d);
      intros; try discriminate; reflexivity.
  - intros Hf Ht.
    destruct (p_text d) as [[|c t]|]; try discriminate.
    destruct (p_clauses d), (p_results d) as [[|[? ?] ?]|], (p_langextract d);
      try discriminate; reflexivity.
  - intros Hf Hr. rewrite Hr in *.
    destruct (p_clauses d), (p_langextract d); try discriminate; reflexivity.
  - intros model first others Hr Ht. rewrite Hr.
    assert (E : or_default (p_text d) "" = "")
      by (destruct (p_text d) as [[|c t]|]; [reflexivity | discriminate | reflexivity]).
    rewrite E.
    destruct (p_clauses d), (p_langextract d), (json_output first) as [jo|];
      cbn; try reflexivity;
      destruct (jo_text jo) as [[|c t]|]; reflexivity.
Qed.

End NormalizerMore.

(* ===================================================================== *)
(** ** The filter buttons *)
(* ===================================================================== *)

Section FilterButtons.
Import JS Spec Reference Viewer ViewerControls.

Lemma existsb_eqb_In (x : string) (l : list string) :
  existsb (String.eqb x) l = true <-> In x l.
Proof.
  rewrite existsb_exists. split.
  - intros (y & Hy & E). apply String.eqb_eq in E. now subst.
  - intros H. exists x. split; [assumption | apply String.eqb_refl].
Qed.

Lemma unique_from_In (l seen : list string) (x : string) :
  In x (unique_from seen l) <-> In x l /\ ~ In x seen.
Proof.
  revert seen; induction l as [|y l IH]; intros seen; cbn; [tauto|].
  destruct (existsb (String.eqb y) seen) eqn:E.
  - apply existsb_eqb_In in E. rewrite IH. split.
    + tauto.
    + intros [[->|H] Hn]; [contradiction | tauto].
  - assert (Hy : ~ In y seen).
    { intros H. apply existsb_eqb_In in H. congruence. }
    cbn. rewrite IH. cbn. split.
    + intros [->|[H Hn]]; [tauto|]. split; [tauto|]. intros Hs. apply Hn. now right.
    + intros [[->|H] Hn]; [now left|].
      destruct (string_dec y x) as [->|Hne]; [now left|].
      right. split; [assumption|]. intros [E'|Hs]; [contradiction | contradiction].
Qed.

Lemma unique_from_NoDup (l seen : list string) : NoDup (unique_from seen l).
Proof.
  revert seen; induction l as [|y l IH]; intros seen; cbn; [constructor|].
  destruct (existsb (String.eqb y) seen); [apply IH|].
  constructor; [|apply IH].
  rewrite unique_from_In. intros [_ Hn]. apply Hn. now left.
Qed.

(** The filter buttons of the viewer: "all" comes first, every type of a
    clause has a button, every other button is the type of some clause, and
    for the clauses of the normalizer no label occurs twice. *)
Theorem filter_buttons_are_the_types (clauses : list Clause)
    (data : option clause_payload) :
  hd "" (clauseTypes clauses) = "all"
  /\ (forall type : string,
         In type (clauseTypes clauses)
         <-> type = "all" \/ exists c, In c clauses /\ c_type c = type)
  /\ NoDup (clauseTypes
              (ClauseExtraction.clauses (ClauseExtraction.processedData data))).
Proof.
  split; [reflexivity|]. split.
  - intros type. unfold clauseTypes. cbn [In]. rewrite unique_from_In, in_map_iff.
    split.
    + intros [<-|[(c & E & Hc) _]]; [now left | right; now exists c].
    + intros [->|(c & Hc & E)]; [now left|].
      right. split; [now exists c | easy].
  - unfold clauseTypes. constructor; [|apply unique_from_NoDup].
    rewrite unique_from_In, in_map_iff. intros [(c & E & Hc) _].
    destruct (normalized_list_form data) as [l Hl]. rewrite Hl in Hc.
    apply filter_In in Hc as [Hc _]. apply in_map_iff in Hc as (e & <- & _).
    now apply (normalized_type_not_all e).
Qed.

End FilterButtons.

(* ===================================================================== *)
(** ** The entity tab *)
(* ===================================================================== *)

Section EntityTab.
Import JS Spec Reference NERAnalysis.

Lemma get_None_keys (V : Type) (o : list (string * V)) (k : string) :
  get o k = None <-> ~ In k (map fst o).
Proof.
  induction o as [|[k0 v0] o IH]; cbn; [tauto|].
  destruct (String.eqb_spec k0 k) as [->|Hne].
  - split; [discriminate | intros H; exfalso; apply H; now left].
  - rewrite IH. tauto.
Qed.

Lemma get_entry (V : Type) (o : list (string * V)) (k : string) (v : V) :
  NoDup (map fst o) -> In (k, v) o -> get o k = Some v.
Proof.
  induction o as [|[k0 v0] o IH]; cbn; [easy|].
  intros Hnd [E|Hin].
  - injection E as -> ->. now rewrite String.eqb_refl.
  - inversion Hnd as [|? ? Hnot Hrest]; subst.
    destruct (String.eqb_spec k0 k) as [->|_]; [|now apply IH].
    exfalso. apply Hnot. apply in_map_iff. now exists (k, v).
Qed.

Lemma get_In (V : Type) (o : list (string * V)) (k : string) (v : V) :
  get o k = Some v -> In (k, v) o.
Proof.
  induction o as [|[k0 v0] o IH]; cbn; [discriminate|].
  destruct (String.eqb_spec k0 k) as [->|_].
  - intros [= ->]. now left.
  - intros H. right. now apply IH.
Qed.

Lemma values_of_entries (V : Type) (o : list (string * V)) :
  NoDup (map fst o) ->
  flat_map (fun k => match get o k with Some v => [v] | None => [] end) (map fst o)
  = map snd o.
Proof.
  intros Hnd.
  assert (H : forall l, incl l o ->
            flat_map (fun k => match get o k with Some v => [v] | None => [] end)
                     (map fst l) = map snd l).
  { induction l as [|[k v] l IH]; intros Hl; [reflexivity|].
    cbn. rewrite (get_entry _ o k v Hnd) by (apply Hl; now left).
    cbn. f_equal. apply IH. intros x Hx. apply Hl. now right. }
  apply H, incl_refl.
Qed.

Lemma values_permutation (V : Type) (o : list (string * V)) :
  NoDup (map fst o) -> Permutation (values o) (map snd o).
Proof.
  intros Hnd. unfold values. rewrite <- (values_of_entries V o Hnd).
  apply Permutation_flat_map, keys_permutation.
Qed.

Lemma total_count_permutation (l l' : list entityGroup) :
  Permutation l l' -> total_count l = total_count l'.
Proof.
  unfold total_count.
  induction 1 as [|x l l' _ IH|x y l|l l' l'' _ IH1 _ IH2]; cbn [fold_right].
  - reflexivity.
  - now rewrite IH.
  - apply Nat.add_shuffle3.
  - congruence.
Qed.

Lemma total_count_cons (g : entityGroup) (l : list entityGroup) :
  total_count (g :: l) = (count g + total_count l)%nat.
Proof. reflexivity. Qed.

Lemma total_count_set (o : list (string * entityGroup)) (k : string) (g : entityGroup) :
  (total_count (map snd (set o k g))
   + match get o k with Some g0 => count g0 | None => 0 end
   = total_count (map snd o) + count g)%nat.
Proof.
  induction o as [|[k0 g0] o IH]; cbn [set get map snd].
  - rewrite total_count_cons. change (total_count []) with 0%nat. lia.
  - destruct (String.eqb_spec k0 k) as [->|_]; cbn [map snd];
      rewrite !total_count_cons; lia.
Qed.

Lemma members_snoc (k : string) (es : list entity) (e : entity) :
  members k (es ++ [e])
  = (members k es ++ if (group_key e =? k)%string then [e] else [])%list.
Proof. unfold members. rewrite filter_app. cbn. now destruct (group_key e =? k)%string. Qed.

Lemma firstn_snoc (A : Type) (n : nat) (l : list A) (x : A) :
  firstn n (l ++ [x])
  = if (List.length (firstn n l) <? n)%nat then (firstn n l ++ [x])%list
    else firstn n l.
Proof.
  rewrite length_firstn, firstn_app.
  destruct (Nat.ltb_spec (Nat.min n (List.length l)) n) as [Hlt|Hge].
  - rewrite (firstn_all2 l) by lia. f_equal.
    destruct (n - List.length l)%nat eqn:E; [lia | now destruct n0].
  - replace (n - List.length l)%nat with 0%nat by lia. cbn. apply app_nil_r.
Qed.

(** One more entity: every key keeps or gets the group of its members. *)
Lemma group_entity_step (o : list (string * entityGroup)) (es : list entity)
    (e : entity) :
  (forall k, group_of o es k) ->
  forall k, group_of (group_entity o e) (es ++ [e]) k.
Proof.
  intros Hinv k. unfold group_of, group_entity. fold (group_key e).
  rewrite get_set, members_snoc.
  destruct (String.eqb_spec (group_key e) k) as [E|Hne].
  - subst k. specialize (Hinv (group_key e)). unfold group_of in Hinv.
    destruct (get o (group_key e)) as [g|].
    + destruct Hinv as (Ht & Hc & Hx & Hpos). cbn [type color count examples].
      rewrite length_app, map_app. cbn [List.length map].
      rewrite firstn_snoc, <- Hx.
      repeat split; try assumption; lia.
    + rewrite Hinv. cbn. repeat split; lia.
  - specialize (Hinv k). unfold group_of in Hinv. now rewrite app_nil_r.
Qed.

Lemma group_entity_fold (es pre : list entity) (o : list (string * entityGroup)) :
  (forall k, group_of o pre k) ->
  forall k, group_of (fold_left group_entity es o) (pre ++ es) k.
Proof.
  revert pre o; induction es as [|e es IH]; intros pre o Hinv.
  - now rewrite app_nil_r.
  - cbn [fold_left].
    replace (pre ++ e :: es)%list with ((pre ++ [e]) ++ es)%list
      by (now rewrite <- app_assoc).
    apply IH. now apply group_entity_step.
Qed.

Lemma group_entity_keys (es : list entity) (o : list (string * entityGroup)) :
  NoDup (map fst o) -> NoDup (map fst (fold_left group_entity es o)).
Proof.
  revert o; induction es as [|e es IH]; intros o H; cbn [fold_left]; [assumption|].
  apply IH. unfold group_entity. now apply NoDup_keys_set.
Qed.

Lemma total_count_group_entity (o : list (string * entityGroup)) (e : entity) :
  total_count (map snd (group_entity o e)) = (total_count (map snd o) + 1)%nat.
Proof.
  unfold group_entity. fold (group_key e).
  match goal with
  | |- context [set o ?k ?g] => pose proof (total_count_set o k g) as H
  end.
  destruct (get o (group_key e)); cbn [count type color examples] in *; lia.
Qed.

Lemma group_entity_total (es : list entity) (o : list (string * entityGroup)) :
  total_count (map snd (fold_left group_entity es o))
  = (total_count (map snd o) + List.length es)%nat.
Proof.
  revert o; induction es as [|e es IH]; intros o; cbn [fold_left List.length]; [lia|].
  rewrite IH, total_count_group_entity. lia.
Qed.

(** The groups of the entity tab, as facts about the object built by the
    loop. *)
Lemma entity_groups_facts (es : list entity) :
  let o := fold_left group_entity es [] in
  NoDup (map fst o)
  /\ (forall k, group_of o es k)
  /\ total_count (map snd o) = List.length es
  /\ Permutation (values o) (map snd o).
Proof.
  intros o.
  assert (Hnd : NoDup (map fst o)) by (apply group_entity_keys; constructor).
  split; [exact Hnd|]. split; [|split].
  - apply (group_entity_fold es [] []). intros k. reflexivity.
  - unfold o. rewrite group_entity_total. reflexivity.
  - now apply values_permutation.
Qed.

Lemma group_member (es : list entity) (g : entityGroup) :
  In g (values (fold_left group_entity es [])) ->
  get (fold_left group_entity es []) (type g) = Some g.
Proof.
  destruct (entity_groups_facts es) as (Hnd & Hg & _ & Hp). cbn zeta in *.
  intros Hin. apply (Permutation_in _ Hp) in Hin.
  apply in_map_iff in Hin as ([k g'] & E & Hin). cbn in E. subst g'.
  pose proof (get_entry _ _ _ _ Hnd Hin) as Hget.
  specialize (Hg k). unfold group_of in Hg. rewrite Hget in Hg.
  destruct Hg as (<- & _). exact Hget.
Qed.

Lemma entity_tab_groups_facts (es : list entity) :
  NoDup (map type (entities (processedData (Some {| ner_entities := Some es |}))))
  /\ (forall k : string,
        In k (map type (entities (processedData (Some {| ner_entities := Some es |}))))
        <-> exists e, In e es /\ group_key e = k).
Proof.
  cbn [processedData ner_entities entities].
  destruct (entity_groups_facts es) as (Hnd & Hg & Ht & Hp). cbn zeta in *.
  set (o := fold_left group_entity es []) in *.
  assert (Htypes : map type (map snd o) = map fst o).
  { rewrite map_map. apply map_ext_in. intros [k g] Hin. cbn.
    pose proof (get_entry _ _ _ _ Hnd Hin) as Hget.
    specialize (Hg k). unfold group_of in Hg. rewrite Hget in Hg. tauto. }
  assert (Hpt : Permutation (map type (values o)) (map fst o)).
  { rewrite <- Htypes. now apply Permutation_map. }
  split.
  - apply (Permutation_NoDup (Permutation_sym Hpt) Hnd).
  - intros k. specialize (Hg k). unfold group_of in Hg. split.
    + intros H. apply (Permutation_in _ Hpt) in H.
      destruct (get o k) as [g|] eqn:Hget.
      * destruct Hg as (_ & Hc & _ & Hpos).
        destruct (members k es) as [|e l] eqn:Hm; [cbn in Hc; lia|].
        assert (He : In e (members k es)) by (rewrite Hm; now left).
        apply filter_In in He as [He Hk]. apply String.eqb_eq in Hk.
        now exists e.
      * apply get_None_keys in Hget. contradiction.
    + intros (e & He & Hk). apply (Permutation_in _ (Permutation_sym Hpt)).
      destruct (get o k) as [g|] eqn:Hget.
      * apply get_In in Hget. apply in_map_iff. now exists (k, g).
      * exfalso. assert (Hin : In e (members k es)).
        { apply filter_In. split; [assumption | now apply String.eqb_eq]. }
        rewrite Hg in Hin. destruct Hin.
Qed.

(** The entity tab, when no entity is grouped under the name of a property
    that an object literal inherits: the counts of the groups add up to the
    number of entities; no two groups have the same type; there is a group
    for a type exactly when an entity has it (its label, else its type, else
    "OTHER"); and every group counts the entities of its type and lists the
    texts of the first ten of them, in the order received. *)
Theorem entity_tab_groups (es : list entity) :
  groups_are_own_names es = true ->
  let shown := processedData (Some {| ner_entities := Some es |}) in
  totalEntities shown = List.length es
  /\ total_count (entities shown) = List.length es
  /\ NoDup (map type (entities shown))
  /\ (forall k : string,
        In k (map type (entities shown)) <-> exists e, In e es /\ group_key e = k)
  /\ Forall (fun g =>
               count g = List.length (members (type g) es)
               /\ examples g = firstn 10 (map en_text (members (type g) es))
               /\ (1 <= count g)%nat
               /\ (List.length (examples g) <= 10)%nat)
            (entities shown).
Proof.
  intros _. cbn zeta. destruct (entity_tab_groups_facts es) as (Hnd & Hkeys).
  cbn [processedData ner_entities entities totalEntities] in *.
  destruct (entity_groups_facts es) as (_ & Hg & Ht & Hp). cbn zeta in *.
  split; [reflexivity|]. split; [|split; [|split]].
  - now rewrite (total_count_permutation _ _ Hp).
  - exact Hnd.
  - exact Hkeys.
  - apply Forall_forall. intros g Hin.
    pose proof (group_member es g Hin) as Hget.
    specialize (Hg (type g)). unfold group_of in Hg. rewrite Hget in Hg.
    destruct Hg as (_ & Hc & Hx & Hpos).
    repeat split; try assumption.
    rewrite Hx, length_firstn. lia.
Qed.

End EntityTab.

(* ===================================================================== *)
(** ** The entity chart beside the entity tab *)
(* ===================================================================== *)

Section ChartAndTab.
Import JS Spec Reference.

Lemma In_firstn (A : Type) (n : nat) (l : list A) (x : A) :
  In x (firstn n l) -> In x l.
Proof.
  intros H. rewrite <- (firstn_skipn n l). apply in_or_app. now left.
Qed.

Lemma entityData_item (f : option sentiment_payload) (l : option clause_payload)
    (es : list entity) (it : AnalysisCharts.entity_item) :
  In it (AnalysisCharts.entityData
           {| ner := Some {| ner_entities := Some es |}; finbert := f;
              langextract := l |}) ->
  (exists e, In e es /\ label_key e = AnalysisCharts.name it)
  /\ AnalysisCharts.value it = occurrences (AnalysisCharts.name it) es.
Proof.
  unfold AnalysisCharts.entityData. cbn [ner ner_entities]. unfold slice0.
  intros H. apply In_firstn, In_sort, in_map_iff in H as (key & <- & Hkey).
  cbn [AnalysisCharts.name AnalysisCharts.value].
  apply (Permutation_in _ (keys_permutation _ _)) in Hkey.
  apply keys_of_counts in Hkey as [[]|Hkey]. split; [exact Hkey|].
  fold (value_of (fold_left AnalysisCharts.count_entity es []) key).
  now rewrite value_of_counts.
Qed.

Lemma labelled_keys_agree (e : entity) :
  truthy (en_label e) = true -> label_key e = group_key e.
Proof.
  unfold label_key, group_key, property_key, or_else, or_default.
  destruct (en_label e) as [[|c s]|]; cbn; try discriminate. reflexivity.
Qed.

Lemma labelled_occurrences (k : string) (es : list entity) :
  Forall (fun e => truthy (en_label e) = true) es ->
  occurrences k es = List.length (members k es).
Proof.
  intros H. unfold occurrences, members. f_equal. apply filter_ext_in.
  intros e He. rewrite labelled_keys_agree; [reflexivity|].
  revert e He. now apply Forall_forall.
Qed.

(** When every entity carries a label that is not empty and names no
    property that an object literal inherits, each slice of the entity chart
    is a group of the entity tab: same name, same count. *)
Theorem entity_chart_agrees_with_tab (f : option sentiment_payload)
    (l : option clause_payload) (es : list entity) (it : AnalysisCharts.entity_item) :
  Forall (fun e => truthy (en_label e) = true) es ->
  labels_are_own_names es = true ->
  In it (AnalysisCharts.entityData
           {| ner := Some {| ner_entities := Some es |}; finbert := f;
              langextract := l |}) ->
  exists g : NERAnalysis.entityGroup,
    In g (NERAnalysis.entities
            (NERAnalysis.processedData (Some {| ner_entities := Some es |})))
    /\ NERAnalysis.type g = AnalysisCharts.name it
    /\ NERAnalysis.count g = AnalysisCharts.value it.
Proof.
  intros Hlab _ Hit.
  apply entityData_item in Hit as ((e & He & Hk) & Hv).
  destruct (entity_groups_facts es) as (Hnd & Hg & _ & Hp). cbn zeta in *.
  specialize (Hg (AnalysisCharts.name it)). unfold group_of in Hg.
  destruct (get _ (AnalysisCharts.name it)) as [g|] eqn:Hget.
  - destruct Hg as (Ht & Hc & _). exists g. split; [|split].
    + cbn [NERAnalysis.processedData ner_entities NERAnalysis.entities].
      apply (Permutation_in _ (Permutation_sym Hp)).
      apply get_In in Hget. apply in_map_iff. now exists (AnalysisCharts.name it, g).
    + exact Ht.
    + now rewrite Hc, Hv, labelled_occurrences.
  - exfalso.
    assert (Hin : In e (members (AnalysisCharts.name it) es)).
    { apply filter_In. split; [assumption|]. apply String.eqb_eq.
      rewrite <- labelled_keys_agree; [assumption|].
      exact (proj1 (Forall_forall _ _) Hlab e He). }
    rewrite Hg in Hin. destruct Hin.
Qed.

Lemma filter_by_key_short (A : Type) (key : A -> string) (t : string) (l : list A) :
  NoDup (map key l) ->
  (List.length (filter (fun x => (key x =? t)%string) l) <= 1)%nat.
Proof.
  induction l as [|x l IH]; cbn; [lia|].
  intros Hnd. inversion Hnd as [|? ? Hnot Hrest]; subst.
  destruct (String.eqb_spec (key x) t) as [E|_]; [|now apply IH].
  cbn. assert (H : filter (fun y => (key y =? t)%string) l = []).
  { destruct (filter (fun y => (key y =? t)%string) l) as [|y l'] eqn:F;
      [reflexivity|exfalso].
    assert (Hy : In y (filter (fun y => (key y =? t)%string) l))
      by (rewrite F; now left).
    apply filter_In in Hy as [Hy Ey]. apply String.eqb_eq in Ey.
    apply Hnot. apply in_map_iff. exists y. split; [congruence | assumption]. }
  rewrite H. cbn. lia.
Qed.

(** When no entity is grouped under the name of a property that an object
    literal inherits: choosing a type other than "all" in the entity tab
    shows at most one group, the group of that type; "all" shows every
    group. *)
Theorem entity_filter_shows_one_group (es : list entity) (selectedFilter : string) :
  groups_are_own_names es = true ->
  let groups :=
    NERAnalysis.entities
      (NERAnalysis.processedData (Some {| ner_entities := Some es |})) in
  NERFilter.filteredEntities "all" groups = groups
  /\ (selectedFilter <> "all" ->
      (List.length (NERFilter.filteredEntities selectedFilter groups) <= 1)%nat
      /\ (forall g, In g (NERFilter.filteredEntities selectedFilter groups)
                    <-> In g groups /\ NERAnalysis.type g = selectedFilter)
      /\ (NERFilter.filteredEntities selectedFilter groups <> []
          <-> exists e, In e es /\ group_key e = selectedFilter)).
Proof.
  intros _ groups. split; [reflexivity|]. intros Hf.
  apply String.eqb_neq in Hf. unfold NERFilter.filteredEntities. rewrite Hf.
  destruct (entity_tab_groups_facts es) as (Hnd & Hkeys).
  fold groups in Hnd, Hkeys.
  assert (Hin : forall g, In g (filter (fun e => (NERAnalysis.type e =? selectedFilter)%string)
                                  groups)
                          <-> In g groups /\ NERAnalysis.type g = selectedFilter).
  { intros g. rewrite filter_In. now rewrite String.eqb_eq. }
  split; [now apply filter_by_key_short|]. split; [exact Hin|].
  rewrite <- Hkeys, in_map_iff. split.
  - intros Hne.
    destruct (filter _ groups) as [|g l'] eqn:F; [contradiction|].
    destruct (proj1 (Hin g) (or_introl eq_refl)) as [Hg E]. now exists g.
  - intros (g & E & Hg) Hnil.
    assert (H : In g (filter (fun e => (NERAnalysis.type e =? selectedFilter)%string)
                        groups)) by (apply Hin; now split).
    rewrite Hnil in H. destruct H.
Qed.

End ChartAndTab.

(* ===================================================================== *)
(** ** The risk chart and the clause list, side by side *)
(* ===================================================================== *)

Section RiskTotals.
Import JS Spec Reference AnalysisCharts.

Lemma count_importance_total (l : list Clause) :
  (count_importance high l + count_importance medium l + count_importance low l
   = List.length l)%nat.
Proof.
  unfold count_importance. induction l as [|c l IH]; [reflexivity|].
  cbn [filter List.length]. destruct (c_importance c); cbn [List.length]; lia.
Qed.

Lemma total_value_buckets (h m lo : nat) :
  total_value (buckets h m lo) = (h + m + lo)%nat.
Proof. destruct h, m, lo; cbn; lia. Qed.

Lemma buckets_positive (h m lo : nat) :
  Forall (fun it => (0 < r_value it)%nat) (buckets h m lo).
Proof.
  unfold buckets. apply Forall_forall. intros it Hit.
  apply filter_In in Hit as [_ Hit]. now apply Nat.ltb_lt in Hit.
Qed.

(** The risk chart counts every entry of [data.langextract.clauses]: its
    values are positive and add up to the length of that list, so to at least
    the number of clauses that the clause list shows for the same flat
    payload. *)
Theorem risk_chart_counts_every_entry (n : option ner_payload)
    (f : option sentiment_payload) (t : option string)
    (nl : option nested_langextract) (l : list extraction) :
  let flat := {| p_text := t; p_results := None; p_clauses := Some l;
                 p_langextract := nl |} in
  let items := riskData {| ner := n; finbert := f; langextract := Some flat |} in
  total_value items = List.length l
  /\ Forall (fun it => (0 < r_value it)%nat) items
  /\ (ClauseExtraction.totalClauses (ClauseExtraction.processedData (Some flat))
      <= total_value items)%nat.
Proof.
  cbn zeta. rewrite riskData_of_list, total_value_buckets, count_importance_total.
  rewrite length_map. split; [reflexivity|]. split; [apply buckets_positive|].
  cbn [ClauseExtraction.processedData ClauseExtraction.totalClauses p_clauses
       p_results p_langextract ClauseExtraction.rawClauses].
  apply Nat.le_trans with (List.length (map ClauseExtraction.mapClause l));
    [apply filter_length_le | rewrite length_map; lia].
Qed.

End RiskTotals.

(* ===================================================================== *)
(** ** Sentences *)
(* ===================================================================== *)

Section Sentences.
Import JS Spec Reference SentimentAnalysis.

Lemma lower_char_twice (c : ascii) : lower_char (lower_char c) = lower_char c.
Proof. destruct c as [[] [] [] [] [] [] [] []]; vm_compute; reflexivity. Qed.

Lemma toLowerCase_twice (s : string) : toLowerCase (toLowerCase s) = toLowerCase s.
Proof.
  unfold toLowerCase. induction s as [|c s IH]; cbn [map_chars]; [reflexivity|].
  now rewrite IH, lower_char_twice.
Qed.

Lemma number_or_zero_not_nan (x : option PrimFloat.float) :
  PrimFloat.is_nan (number_or_zero x) = false.
Proof.
  unfold number_or_zero. destruct x as [v|]; [|reflexivity].
  destruct (PrimFloat.is_nan v) eqn:E; cbn [orb]; [reflexivity|].
  destruct (PrimFloat.is_zero v); [reflexivity | exact E].
Qed.

(** The sentiment view of any payload: one entry for each sentence, in
    order, with the text of the sentence; every label, and the overall label,
    is in lower case; no score of a sentence is NaN; and the confidence is
    the score. When the statistics name an overall label that no object
    literal inherits as a property, the overall score is the average score
    listed for that label, with 0 for a missing, zero or NaN one, and so is
    not NaN. *)
Theorem sentiment_view_is_clean (d : sentiment_payload) :
  let view := processedData (Some d) in
  Forall2 (fun s v => text v = sr_text s
                      /\ sentiment v = toLowerCase (or_default (sr_label s) "neutral")
                      /\ PrimFloat.is_nan (score v) = false)
          (sentences_of d) (sentenceAnalysis view)
  /\ Forall (fun v => toLowerCase (sentiment v) = sentiment v) (sentenceAnalysis view)
  /\ toLowerCase (overallSentiment view) = overallSentiment view
  /\ confidence view = p_score view
  /\ (forall (st : statistics_t) (s : string),
        statistics d = Some st -> overall_sentiment st = Some s ->
        own_name s = true ->
        p_score view = number_or_zero (listed_score st s)
        /\ PrimFloat.is_nan (p_score view) = false).
Proof.
  cbn zeta. unfold processedData, sentences_of, listed_score.
  assert (Hmap : forall l : list sentence_result,
            Forall2 (fun s v => text v = sr_text s
                      /\ sentiment v = toLowerCase (or_default (sr_label s) "neutral")
                      /\ PrimFloat.is_nan (score v) = false)
              l (map (fun s => {| text := sr_text s;
                                  sentiment := toLowerCase (or_default (sr_label s) "neutral");
                                  score := number_or_zero (sr_score s) |}) l)).
  { induction l as [|s l IH]; cbn; constructor; [|exact IH].
    cbn. repeat split. apply number_or_zero_not_nan. }
  assert (Hlow : forall l : list sentence_result,
            Forall (fun v => toLowerCase (sentiment v) = sentiment v)
              (map (fun s => {| text := sr_text s;
                                sentiment := toLowerCase (or_default (sr_label s) "neutral");
                                score := number_or_zero (sr_score s) |}) l)).
  { induction l as [|s l IH]; cbn; constructor; [|exact IH].
    cbn. apply toLowerCase_twice. }
  destruct (statistics d) as [st|], (sentence_results d) as [l|];
    cbn [sentenceAnalysis overallSentiment p_score confidence];
    (split; [first [apply Hmap | apply Forall2_nil]|]);
    (split; [first [apply Hlow | apply Forall_nil]|]);
    (split; [first [apply toLowerCase_twice | reflexivity]|]);
    (split; [reflexivity|]);
    intros st' s Hst Hs _; try discriminate Hst;
    injection Hst as <-; rewrite Hs; cbn [property_key];
    (split; [reflexivity | apply number_or_zero_not_nan]).
Qed.

End Sentences.

(* ===================================================================== *)
(** ** The chat session, exchange by exchange *)
(* ===================================================================== *)

Section ChatExchanges.
Import JS Spec Reference Chatbot ChatSession.

Lemma numbered_snoc (msgs : list message) (m : message) :
  numbered msgs -> id m = (List.length msgs + 1)%nat -> numbered (msgs ++ [m]).
Proof.
  unfold numbered. intros H E.
  rewrite map_app, length_app, H. cbn [map List.length].
  rewrite seq_app. cbn. rewrite E. f_equal. f_equal. lia.
Qed.

Lemma trim_not_blank (q : string) :
  trim q <> "" -> (trim q =? "")%string = false.
Proof. apply String.eqb_neq. Qed.

(** What asking does to the transcript, whatever the outcome. *)
Lemma ask_messages (now : nat) (net : string -> response + string) (q : string)
    (st : state) :
  let '(st1, todo) := handleSendMessage now (setInputValue q st) in
  let st2 := fold_left (fun st p => settle now net p st) todo st1 in
  uploadedDocs st2 = uploadedDocs st
  /\ ((trim q =? "")%string = true /\ messages st2 = messages st
      \/ (trim q =? "")%string = false
         /\ exists u b : message,
              messages st2 = (messages st ++ [u; b])%list
              /\ id u = (List.length (messages st) + 1)%nat
              /\ id b = (List.length (messages st) + 2)%nat
              /\ sender u = user /\ sender b = bot /\ text u = q).
Proof.
  unfold handleSendMessage. cbn [inputValue setInputValue messages uploadedDocs].
  destruct (trim q =? "")%string eqn:Hq.
  - cbn. split; [reflexivity|]. now left.
  - destruct (List.length (uploadedDocs st) =? 0)%nat; cbn [fold_left settle].
    + split; [reflexivity|]. right. split; [reflexivity|].
      eexists. eexists. split.
      * cbn. rewrite <- app_assoc. reflexivity.
      * repeat split.
    + split; [reflexivity|]. right. split; [reflexivity|].
      destruct (net q) as [r|err]; eexists; eexists; (split;
        [cbn; rewrite <- app_assoc; reflexivity | repeat split]).
Qed.

Lemma exchange_step_facts (now : nat) (net : string -> response + string)
    (ex : exchange) (s : session) (kept : nat) :
  numbered (messages (chat s)) ->
  List.length (uploadedDocs (chat s)) = kept ->
  numbered (messages (chat (exchange_step now net ex s)))
  /\ List.length (uploadedDocs (chat (exchange_step now net ex s)))
     = uploads_kept [ex] kept.
Proof.
  intros Hn Hk. destruct ex as [|q|[file|] outcome].
  - cbn. split; reflexivity.
  - cbn [exchange_step uploads_kept].
    pose proof (ask_messages now net q (chat s)) as H.
    destruct (handleSendMessage now (setInputValue q (chat s))) as [st1 todo].
    cbn [chat]. destruct H as (Hdocs & [(_ & Hm)|(_ & u & b & Hm & Hu & Hb & _)]).
    + rewrite Hdocs, Hm. now split.
    + rewrite Hdocs, Hm. split; [|assumption].
      change [u; b] with ([u] ++ [b])%list. rewrite app_assoc.
      apply numbered_snoc; [now apply numbered_snoc|].
      rewrite length_app. cbn. lia.
  - cbn [exchange_step handleFileUpload uploads_kept].
    destruct outcome as [result|err]; cbn.
    + split.
      * apply numbered_snoc; [apply numbered_snoc|]; cbn;
          [assumption | reflexivity | rewrite length_app; cbn; lia].
      * rewrite length_app. cbn. lia.
    + split; [|assumption].
      apply numbered_snoc; [apply numbered_snoc|]; cbn;
        [assumption | reflexivity | rewrite length_app; cbn; lia].
  - cbn. now split.
Qed.

Lemma uploads_kept_app (l l' : list exchange) (acc : nat) :
  uploads_kept (l ++ l') acc = uploads_kept l' (uploads_kept l acc).
Proof.
  revert acc; induction l as [|ex l IH]; intros acc; [reflexivity|].
  destruct ex as [|q|[file|] [result|err]]; cbn; apply IH.
Qed.

Lemma exchanges_facts (now : nat) (net : string -> response + string)
    (l : list exchange) (s : session) :
  numbered (messages (chat s)) ->
  numbered (messages (chat (exchanges now net l s)))
  /\ List.length (uploadedDocs (chat (exchanges now net l s)))
     = uploads_kept l (List.length (uploadedDocs (chat s))).
Proof.
  revert s; induction l as [|ex l IH]; intros s Hn; [now split|].
  cbn [exchanges fold_left].
  destruct (exchange_step_facts now net ex s _ Hn eq_refl) as [Hn' Hk'].
  destruct (IH _ Hn') as [Hn'' Hk'']. fold (exchanges now net l (exchange_step now net ex s)).
  split; [assumption|]. rewrite Hk'', Hk'.
  now rewrite <- (uploads_kept_app [ex] l).
Qed.

(** After any sequence of whole exchanges (clearing, asking, uploading,
    each run to its end before the next starts) the messages carry the
    identifiers 1, 2, 3, ... in order, and the number of attached documents is
    the number of uploads that succeeded since the chat was last cleared. *)
Theorem whole_exchanges_keep_the_transcript_numbered (now : nat)
    (net : string -> response + string) (l : list exchange) :
  numbered (messages (chat (exchanges now net l (ChatSession.initial now))))
  /\ List.length (uploadedDocs (chat (exchanges now net l (ChatSession.initial now))))
     = uploads_kept l 0.
Proof. apply (exchanges_facts now net l (ChatSession.initial now)). reflexivity. Qed.

(** A question that is not blank, asked while a document is attached, goes
    to the back end: the user's message is appended, the input is emptied,
    the loading flag is raised and exactly one request with the question is
    pending, no timer. When the request settles, the flag is lowered and one
    bot message is appended: the answer with its sources, a fixed apology when
    the answer reports a failure, or the error's message. Whether a request
    is already under way makes no difference to what the handler starts. *)
Theorem question_with_document_goes_to_the_back_end (now later : nat) (st : state)
    (q : string) (outcome : response + string) :
  trim q <> "" ->
  uploadedDocs st <> [] ->
  let asked := handleSendMessage now (setInputValue q st) in
  let n := List.length (messages st) in
  snd asked = [QueryRAG q (n + 2)]
  /\ isLoading (fst asked) = true
  /\ inputValue (fst asked) = ""
  /\ messages (fst asked)
     = (messages st
        ++ [ {| id := n + 1; text := q; sender := user; timestamp := now;
                sources := None |} ])%list
  /\ isLoading (query_settled later (n + 2) outcome (fst asked)) = false
  /\ messages (query_settled later (n + 2) outcome (fst asked))
     = (messages (fst asked)
        ++ [ {| id := n + 2;
                text := match outcome with
                        | inl r => if success r then answer r
                                   else "I encountered an error processing your question."
                        | inr e => "Error: " ++ e
                                   ++ ". Make sure you've uploaded a document first!"
                        end;
                sender := bot; timestamp := later;
                sources := match outcome with
                           | inl r => sources_used r
                           | inr _ => None
                           end |} ])%list
  /\ snd (handleSendMessage now (setIsLoading true (setInputValue q st)))
     = snd asked.
Proof.
  intros Hq Hdocs. apply trim_not_blank in Hq.
  cbv zeta. unfold handleSendMessage.
  cbn [inputValue setInputValue setIsLoading messages uploadedDocs].
  rewrite Hq.
  assert (E : (List.length (uploadedDocs st) =? 0)%nat = false)
    by (destruct (uploadedDocs st); [contradiction | reflexivity]).
  rewrite E. cbn [fst snd].
  repeat (split; [reflexivity|]).
  split; [now destruct outcome | reflexivity].
Qed.

Lemma settle_ids (now : nat) (net : string -> response + string) (p : pending)
    (st : state) :
  map id (messages (settle now net p st))
  = (map id (messages st) ++ [reply_id_of p])%list.
Proof.
  destruct p as [delay r|question r]; cbn [settle timeout_fired query_settled].
  - cbn. now rewrite map_app.
  - destruct (net question); cbn; now rewrite map_app.
Qed.

Lemma send_ids (now : nat) (st : state) (q : string) :
  trim q <> "" ->
  let '(st1, todo) := handleSendMessage now (setInputValue q st) in
  map id (messages st1) = (map id (messages st) ++ [List.length (messages st) + 1])%list
  /\ List.length (messages st1) = (List.length (messages st) + 1)%nat
  /\ exists p, todo = [p] /\ reply_id_of p = (List.length (messages st) + 2)%nat.
Proof.
  intros Hq. apply trim_not_blank in Hq. unfold handleSendMessage.
  cbn [inputValue setInputValue messages uploadedDocs]. rewrite Hq.
  destruct (List.length (uploadedDocs st) =? 0)%nat; cbn;
    rewrite map_app, length_app; cbn; (split; [reflexivity|]);
    (split; [reflexivity|]); eexists; split; reflexivity.
Qed.

(** Two questions asked one right after the other, the second before the
    reply to the first has arrived, leave two messages with the same
    identifier in the transcript: the second question and the first reply. *)
Theorem overlapping_questions_share_an_identifier (now : nat)
    (net : string -> response + string) (st : state) (q1 q2 : string) :
  trim q1 <> "" ->
  trim q2 <> "" ->
  let first := handleSendMessage now (setInputValue q1 st) in
  let second := handleSendMessage now (setInputValue q2 (fst first)) in
  let settled :=
    fold_left (fun st p => settle now net p st) (snd first ++ snd second)
              (fst second) in
  let n := List.length (messages st) in
  map id (messages settled)
  = (map id (messages st) ++ [n + 1; n + 2; n + 2; n + 3])%nat%list
  /\ ~ NoDup (map id (messages settled)).
Proof.
  intros H1 H2. cbv zeta.
  pose proof (send_ids now st q1 H1) as F.
  destruct (handleSendMessage now (setInputValue q1 st)) as [s1 todo1].
  destruct F as (Hi1 & Hl1 & (p1 & -> & Hr1)). cbn [fst snd].
  pose proof (send_ids now s1 q2 H2) as S.
  destruct (handleSendMessage now (setInputValue q2 s1)) as [s2 todo2].
  destruct S as (Hi2 & Hl2 & (p2 & -> & Hr2)). cbn [fst snd app fold_left].
  assert (E : map id (messages (settle now net p2 (settle now net p1 s2)))
              = (map id (messages st)
                 ++ [List.length (messages st) + 1; List.length (messages st) + 2;
                     List.length (messages st) + 2; List.length (messages st) + 3])%nat%list).
  { rewrite !settle_ids, Hi2, Hi1, Hr1, Hr2, Hl1, <- !app_assoc. cbn [app].
    replace (List.length (messages st) + 1 + 1)%nat
      with (List.length (messages st) + 2)%nat by lia.
    replace (List.length (messages st) + 1 + 2)%nat
      with (List.length (messages st) + 3)%nat by lia.
    reflexivity. }
  split; [exact E|]. rewrite E. intros Hnd.
  change [List.length (messages st) + 1; List.length (messages st) + 2;
          List.length (messages st) + 2; List.length (messages st) + 3]%nat
    with ([List.length (messages st) + 1]
          ++ (List.length (messages st) + 2)
             :: [List.length (messages st) + 2; List.length (messages st) + 3])%nat%list
    in Hnd.
  rewrite app_assoc in Hnd. apply NoDup_remove_2 in Hnd. apply Hnd.
  apply in_or_app. right. now left.
Qed.

End ChatExchanges.

(* ===================================================================== *)
(** ** The results page *)
(* ===================================================================== *)

Section ResultsPage.
Import JS Spec Reference Results.

Lemma first_selected_is_first_tab (features : selection) (st : state) :
  let st' := {| activeTab := first_selected features (activeTab st);
                selectedAnalyses := features;
                uploadedFiles := uploadedFiles st;
                analysisResults := analysisResults st |} in
  tabs st' = [] \/ hd "" (tabs st') = activeTab st'.
Proof.
  destruct features as [[] [] []]; cbn; auto.
Qed.

Lemma tabs_only_selection (st st' : state) :
  selectedAnalyses st = selectedAnalyses st' -> tabs st = tabs st'.
Proof. unfold tabs. now intros ->. Qed.

(** The loading effect of the results page, run on the initial state. It
    fails exactly when results come from the application state while the
    navigation carries no state of its own. When it succeeds, the active tab
    is the first of the tabs shown, unless no tab is shown at all; and the
    results kept are those of the navigation state or, failing that, of the
    application. *)
Theorem results_page_opens_on_its_first_tab (location_state : option navigation)
    (globalResults : option bundle) (stored : option selection)
    (files : option (list string)) :
  (load location_state globalResults stored files initial = None
   <-> location_state = None /\ globalResults <> None)
  /\ (forall st : state,
         load location_state globalResults stored files initial = Some st ->
         (tabs st = [] \/ hd "" (tabs st) = activeTab st)
         /\ (tabs st = [] <->
             selectedAnalyses st
             = {| sel_ner := false; sel_sentiment := false; sel_clauses := false |})
         /\ analysisResults st
            = match location_state with
              | Some nav =>
                  match nav_analysisResults nav with
                  | Some d => Some d
                  | None => globalResults
                  end
              | None => None
              end).
Proof.
  split.
  - unfold load.
    destruct location_state as [[[d|] feat name]|], globalResults as [g|];
      cbn; split; try discriminate; try (intros [? ?]; congruence);
      try (intros [E ?]; discriminate); intros _; split; congruence.
  - intros st Hload. unfold load in Hload.
    assert (Htabs : forall s : state,
              tabs s = [] <->
              selectedAnalyses s
              = {| sel_ner := false; sel_sentiment := false; sel_clauses := false |}).
    { intros s. unfold tabs. destruct (selectedAnalyses s) as [[] [] []]; cbn;
        split; intros H; try discriminate; reflexivity. }
    destruct location_state as [[r feat name]|].
    + cbn [nav_analysisResults nav_selectedFeatures nav_fileName] in Hload.
      destruct r as [d|], globalResults as [g|];
        (destruct feat as [[[] [] []]|], stored as [[[] [] []]|];
         injection Hload as <-;
         (split; [cbn; auto | split; [apply Htabs | reflexivity]])).
    + destruct globalResults as [g|]; [discriminate|].
      destruct stored as [[[] [] []]|]; injection Hload as <-;
        (split; [cbn; auto | split; [apply Htabs | reflexivity]]).
Qed.

Lemma map_chars_app (f : ascii -> ascii) (a b : string) :
  map_chars f (a ++ b) = map_chars f a ++ map_chars f b.
Proof. induction a as [|c a IH]; cbn; [reflexivity | now rewrite IH]. Qed.

Lemma map_chars_dash_plain (s : string) : plain s = true -> map_chars dash s = s.
Proof.
  induction s as [|c s IH]; cbn [map_chars plain]; [reflexivity|].
  intros H. apply andb_true_iff in H as [H Hs].
  apply andb_true_iff in H as [H1 H2]. apply negb_true_iff in H1, H2.
  rewrite (IH Hs). f_equal. unfold dash. now rewrite H1, H2.
Qed.

Lemma map_chars_dash_is_plain (s : string) : plain (map_chars dash s) = true.
Proof.
  induction s as [|c s IH]; cbn [map_chars plain]; [reflexivity|].
  rewrite IH, andb_true_r.
  destruct c as [[] [] [] [] [] [] [] []]; vm_compute; reflexivity.
Qed.

Lemma length_append (a b : string) :
  String.length (a ++ b) = (String.length a + String.length b)%nat.
Proof. induction a as [|c a IH]; cbn; [reflexivity | now rewrite IH]. Qed.

Lemma substring_append_left (a b : string) :
  substring 0 (String.length a) (a ++ b) = a.
Proof.
  induction a as [|c a IH]; cbn; [now destruct b | now rewrite IH].
Qed.

Lemma plain_substring (n m : nat) (s : string) :
  plain s = true -> plain (substring n m s) = true.
Proof.
  revert n m; induction s as [|c s IH]; intros n m H.
  - now destruct n, m.
  - cbn [plain] in H. apply andb_true_iff in H as [Hc Hs].
    destruct n as [|n]; cbn [substring].
    + destruct m as [|m]; [reflexivity|]. cbn [plain]. rewrite Hc. now apply IH.
    + now apply IH.
Qed.

Lemma drop_last_append (a b : string) (k : nat) :
  String.length b = k -> drop_last k (a ++ b) = a.
Proof.
  intros E. unfold drop_last. rewrite length_append, E.
  replace (String.length a + k - k)%nat with (String.length a) by lia.
  apply substring_append_left.
Qed.

(** The name of a downloaded file. The time stamp in it never holds a
    colon or a full stop; and for a time in the ISO form
    date T hours : minutes : seconds . milliseconds Z the name is
    financial_analysis_ date T hours - minutes - seconds . format. *)
Theorem download_name_of_iso_time (date hh mm ss ms format iso : string) :
  plain date = true -> plain hh = true -> plain mm = true -> plain ss = true ->
  String.length ms = 3%nat ->
  plain (timestamp iso) = true
  /\ download_filename
       (date ++ "T" ++ hh ++ ":" ++ mm ++ ":" ++ ss ++ "." ++ ms ++ "Z") format
     = "financial_analysis_" ++ date ++ "T" ++ hh ++ "-" ++ mm ++ "-" ++ ss
       ++ "." ++ format
  /\ report_filename
       (date ++ "T" ++ hh ++ ":" ++ mm ++ ":" ++ ss ++ "." ++ ms ++ "Z")
     = "financial_report_" ++ date ++ "T" ++ hh ++ "-" ++ mm ++ "-" ++ ss ++ ".html".
Proof.
  intros Hd Hh Hm Hs Hms.
  split; [apply plain_substring, map_chars_dash_is_plain|].
  assert (E : timestamp
                (date ++ "T" ++ hh ++ ":" ++ mm ++ ":" ++ ss ++ "." ++ ms ++ "Z")
              = date ++ "T" ++ hh ++ "-" ++ mm ++ "-" ++ ss).
  { unfold timestamp. rewrite !map_chars_app.
    rewrite (map_chars_dash_plain date Hd), (map_chars_dash_plain hh Hh),
      (map_chars_dash_plain mm Hm), (map_chars_dash_plain ss Hs).
    change (map_chars dash "T") with "T". change (map_chars dash ":") with "-".
    replace (date ++ "T" ++ hh ++ "-" ++ mm ++ "-" ++ ss ++ map_chars dash "."
             ++ map_chars dash ms ++ map_chars dash "Z")
      with ((date ++ "T" ++ hh ++ "-" ++ mm ++ "-" ++ ss)
            ++ (map_chars dash "." ++ map_chars dash ms ++ map_chars dash "Z"))
      by (now rewrite !append_associative).
    apply drop_last_append.
    rewrite !length_append, !length_map_chars, Hms. reflexivity. }
  unfold download_filename, report_filename. rewrite E.
  split; now rewrite !append_associative.
Qed.

End ResultsPage.

(* ===================================================================== *)
(** ** The further theorems at sample inputs *)
(* ===================================================================== *)

Section MoreSamples.
Import Examples MoreExamples.

Lemma disjoint_clauses_are_all_highlighted_sample :
  document <> ""
  /\ Reference.disjoint_from document 0 listed
  /\ exists els : list Viewer.element,
       Viewer.renderHighlightedText document listed = Some els
       /\ List.length (Viewer.highlights els) = 2%nat.
Proof.
  assert (H1 : document <> "") by (vm_compute; discriminate).
  assert (H2 : Reference.disjoint_from document 0 listed)
    by (vm_compute; repeat split; discriminate).
  split; [exact H1|]. split; [exact H2|].
  destruct (disjoint_clauses_are_all_highlighted document listed H1 H2)
    as (els & Hr & _ & Hl).
  exists els. split; [exact Hr | exact Hl].
Defined.

Lemma navigation_keeps_index_in_range_sample :
  forallb Reference.keeps_filters visit = true
  /\ Reference.in_range three_text three_clauses Viewer.initial
  /\ Reference.in_range three_text three_clauses
       (ViewerControls.run three_text three_clauses visit Viewer.initial).
Proof.
  assert (H1 : forallb Reference.keeps_filters visit = true) by reflexivity.
  assert (H2 : Reference.in_range three_text three_clauses Viewer.initial)
    by (vm_compute; split; discriminate).
  split; [exact H1|]. split; [exact H2|].
  exact (navigation_keeps_index_in_range three_text three_clauses visit
           Viewer.initial H1 H2).
Defined.

Lemma autoplay_runs_to_the_last_clause_sample :
  Viewer.interval_running three_text three_clauses
    (Viewer.togglePlay Viewer.initial) = true
  /\ Viewer.tick three_text three_clauses
       (Viewer.setActiveClauseIndex 7 (Viewer.togglePlay Viewer.initial))
     = Viewer.setIsPlaying false
         (Viewer.setActiveClauseIndex 7 (Viewer.togglePlay Viewer.initial)).
Proof.
  split; [reflexivity|].
  apply (proj2 (autoplay_runs_to_the_last_clause three_text three_clauses
                  (Viewer.setActiveClauseIndex 7 (Viewer.togglePlay Viewer.initial))
                  eq_refl)).
  vm_compute. reflexivity.
Defined.

Lemma entity_chart_agrees_with_tab_sample :
  Forall (fun e => JS.truthy (en_label e) = true) three_entities
  /\ Reference.labels_are_own_names three_entities = true
  /\ In {| AnalysisCharts.name := "ORG"; AnalysisCharts.value := 2 |}
        (AnalysisCharts.entityData
           {| ner := Some {| ner_entities := Some three_entities |};
              finbert := None; langextract := None |})
  /\ exists g : NERAnalysis.entityGroup,
       In g (NERAnalysis.entities
               (NERAnalysis.processedData
                  (Some {| ner_entities := Some three_entities |})))
       /\ NERAnalysis.type g = "ORG" /\ NERAnalysis.count g = 2%nat.
Proof.
  assert (H1 : Forall (fun e => JS.truthy (en_label e) = true) three_entities)
    by (repeat constructor).
  assert (H2 : Reference.labels_are_own_names three_entities = true)
    by reflexivity.
  assert (H3 : In {| AnalysisCharts.name := "ORG"; AnalysisCharts.value := 2 |}
                 (AnalysisCharts.entityData
                    {| ner := Some {| ner_entities := Some three_entities |};
                       finbert := None; langextract := None |}))
    by (vm_compute; auto).
  split; [exact H1|]. split; [exact H2|]. split; [exact H3|].
  exact (entity_chart_agrees_with_tab None None three_entities
           {| AnalysisCharts.name := "ORG"; AnalysisCharts.value := 2 |}
           H1 H2 H3).
Defined.

Lemma entity_chart_top_ten_sample :
  Reference.labels_are_own_names three_entities = true
  /\ exists groups : list AnalysisCharts.entity_item,
       AnalysisCharts.entityData
         {| ner := Some {| ner_entities := Some three_entities |};
            finbert := None; langextract := None |}
       = firstn 10 groups
       /\ Spec.descending groups
       /\ NoDup (map AnalysisCharts.name groups).
Proof.
  assert (H : Reference.labels_are_own_names three_entities = true)
    by reflexivity.
  split; [exact H|].
  destruct (entity_chart_top_ten None None three_entities H)
    as (groups & He & Hd & Hn & _).
  exists groups. split; [exact He|]. split; [exact Hd | exact Hn].
Defined.

Lemma entity_tab_groups_sample :
  Reference.groups_are_own_names three_entities = true
  /\ Reference.total_count
       (NERAnalysis.entities
          (NERAnalysis.processedData
             (Some {| ner_entities := Some three_entities |})))
     = 3%nat.
Proof.
  split; [reflexivity|].
  exact (proj1 (proj2 (entity_tab_groups three_entities eq_refl))).
Defined.

Lemma sentiment_view_is_clean_sample :
  Reference.own_name "Positive" = true
  /\ SentimentAnalysis.p_score
       (SentimentAnalysis.processedData (Some positive_payload))
     = SentimentAnalysis.number_or_zero
         (Reference.listed_score positive_statistics "Positive")
  /\ PrimFloat.is_nan
       (SentimentAnalysis.p_score
          (SentimentAnalysis.processedData (Some positive_payload))) = false.
Proof.
  split; [reflexivity|].
  exact (proj2 (proj2 (proj2 (proj2 (sentiment_view_is_clean positive_payload))))
           positive_statistics "Positive" eq_refl eq_refl eq_refl).
Defined.

Lemma question_with_document_goes_to_the_back_end_sample :
  JS.trim "What is this?" <> ""
  /\ Chatbot.uploadedDocs after_upload <> []
  /\ snd (Chatbot.handleSendMessage 1
            (Chatbot.setInputValue "What is this?" after_upload))
     = [Chatbot.QueryRAG "What is this?" 5].
Proof.
  assert (H1 : JS.trim "What is this?" <> "") by (vm_compute; discriminate).
  assert (H2 : Chatbot.uploadedDocs after_upload <> []) by (vm_compute; discriminate).
  split; [exact H1|]. split; [exact H2|].
  exact (proj1 (question_with_document_goes_to_the_back_end 1 2 after_upload
                  "What is this?" (inr "offline") H1 H2)).
Defined.

Lemma overlapping_questions_share_an_identifier_sample :
  JS.trim "first" <> "" /\ JS.trim "second" <> ""
  /\ map Chatbot.id
       (Chatbot.messages
          (fold_left (fun st p => Chatbot.settle 0 offline p st)
             (snd (Chatbot.handleSendMessage 0
                     (Chatbot.setInputValue "first" (Chatbot.initial 0)))
              ++ snd (Chatbot.handleSendMessage 0
                        (Chatbot.setInputValue "second"
                           (fst (Chatbot.handleSendMessage 0
                                   (Chatbot.setInputValue "first"
                                      (Chatbot.initial 0)))))))
             (fst (Chatbot.handleSendMessage 0
                     (Chatbot.setInputValue "second"
                        (fst (Chatbot.handleSendMessage 0
                                (Chatbot.setInputValue "first"
                                   (Chatbot.initial 0)))))))))
     = [1; 2; 3; 3; 4]%nat.
Proof.
  assert (H1 : JS.trim "first" <> "") by (vm_compute; discriminate).
  assert (H2 : JS.trim "second" <> "") by (vm_compute; discriminate).
  split; [exact H1|]. split; [exact H2|].
  exact (proj1 (overlapping_questions_share_an_identifier 0 offline
                  (Chatbot.initial 0) "first" "second" H1 H2)).
Defined.

Lemma download_name_of_iso_time_sample :
  Results.download_filename "2026-11-02T10:30:45.123Z" "json"
  = "financial_analysis_2026-11-02T10-30-45.json".
Proof.
  exact (proj1 (proj2 (download_name_of_iso_time "2026-11-02" "10" "30" "45" "123"
                         "json" "" eq_refl eq_refl eq_refl eq_refl eq_refl))).
Defined.

Lemma document_text_source_sample :
  Some (ClauseExtraction.text (ClauseExtraction.processedData (Some payload)))
  = Some document.
Proof.
  exact (proj1 (proj2 (document_text_source payload)) eq_refl eq_refl).
Defined.

Lemma entity_filter_shows_one_group_sample :
  Reference.groups_are_own_names three_entities = true
  /\ "ORG" <> "all"
  /\ (List.length
        (NERFilter.filteredEntities "ORG"
           (NERAnalysis.entities
              (NERAnalysis.processedData
                 (Some {| ner_entities := Some three_entities |})))) <= 1)%nat.
Proof.
  assert (H : "ORG" <> "all") by discriminate.
  split; [reflexivity|]. split; [exact H|].
  exact (proj1 (proj2 (entity_filter_shows_one_group three_entities "ORG" eq_refl)
                  H)).
Defined.

Lemma results_page_opens_on_its_first_tab_sample :
  exists st : Results.state,
    Results.load (Some arrival) None None None Results.initial = Some st
    /\ Results.activeTab st = "sentiment"
    /\ Results.tabs st = ["sentiment"; "clause"].
Proof.
  eexists. split; [reflexivity|].
  destruct (proj2 (results_page_opens_on_its_first_tab (Some arrival) None None None)
              _ eq_refl) as ([H|H] & _ & _).
  - discriminate H.
  - split; [symmetry; exact H | reflexivity].
Defined.

End MoreSamples.

(* ===================================================================== *)
(** ** Searching the clause list; asking after a session *)
(* ===================================================================== *)

Section SearchAndAsk.
Import JS Spec Reference.

Lemma toLowerCase_empty (s : string) : toLowerCase s = "" <-> s = "".
Proof. destruct s; cbn; split; intros H; try discriminate; reflexivity. Qed.

Lemma incl_optional_filter (A : Type) (b : bool) (f : A -> bool) (l : list A) :
  incl (if b then filter f l else l) l.
Proof. intros x. apply In_optional_filter. Qed.

(** The search of the viewer looks at the search term in lower case only:
    two terms that agree once lower-cased give the same list. And searching
    or filtering only takes clauses away from the list shown without them. *)
Theorem search_ignores_letter_case (text : string) (clauses : list Clause)
    (term term' filterType : string) :
  toLowerCase term = toLowerCase term' ->
  Viewer.sortedClauses text clauses term filterType
  = Viewer.sortedClauses text clauses term' filterType
  /\ incl (Viewer.sortedClauses text clauses term filterType)
          (Viewer.sortedClauses text clauses "" "all").
Proof.
  intros E. split.
  - unfold Viewer.sortedClauses. rewrite E.
    assert (Hb : (term =? "")%string = (term' =? "")%string).
    { destruct (String.eqb_spec term ""), (String.eqb_spec term' "");
        try reflexivity; exfalso; subst.
      - apply n. apply toLowerCase_empty. now rewrite <- E.
      - apply n. apply toLowerCase_empty. now rewrite E. }
    now rewrite Hb.
  - unfold Viewer.sortedClauses. cbn [String.eqb negb].
    intros c Hc. now apply incl_optional_filter, incl_optional_filter in Hc.
Qed.

(** After any sequence of whole exchanges, a question that is not blank
    goes to the back end when an upload has succeeded since the last clear,
    and otherwise only starts the timer of the upload prompt. *)
Theorem questions_need_a_kept_upload (now : nat)
    (net : string -> Chatbot.response + string) (l : list ChatSession.exchange)
    (q : string) :
  trim q <> "" ->
  let st := ChatSession.chat (ChatSession.exchanges now net l (ChatSession.initial now)) in
  let n := List.length (Chatbot.messages st) in
  (uploads_kept l 0 = 0%nat ->
   snd (Chatbot.handleSendMessage now (Chatbot.setInputValue q st))
   = [Chatbot.SetTimeout 500 (n + 2)])
  /\ ((0 < uploads_kept l 0)%nat ->
      snd (Chatbot.handleSendMessage now (Chatbot.setInputValue q st))
      = [Chatbot.QueryRAG q (n + 2)]).
Proof.
  intros Hq. apply trim_not_blank in Hq. cbv zeta.
  destruct (exchanges_facts now net l (ChatSession.initial now) eq_refl) as [_ Hk].
  change (List.length
            (Chatbot.uploadedDocs (ChatSession.chat (ChatSession.initial now))))
    with 0%nat in Hk.
  unfold Chatbot.handleSendMessage.
  cbn [Chatbot.inputValue Chatbot.setInputValue Chatbot.messages Chatbot.uploadedDocs].
  rewrite Hq, Hk. split; intros H.
  - now rewrite H.
  - destruct (uploads_kept l 0); [lia | reflexivity].
Qed.

End SearchAndAsk.

Section SearchAndAskSamples.
Import Examples MoreExamples.

Lemma search_ignores_letter_case_sample :
  JS.toLowerCase "LIABILITY" = JS.toLowerCase "liability"
  /\ Viewer.sortedClauses document
       (ClauseExtraction.clauses (ClauseExtraction.processedData (Some payload)))
       "LIABILITY" "all"
     = Viewer.sortedClauses document
         (ClauseExtraction.clauses (ClauseExtraction.processedData (Some payload)))
         "liability" "all".
Proof.
  assert (H : JS.toLowerCase "LIABILITY" = JS.toLowerCase "liability") by reflexivity.
  split; [exact H|].
  exact (proj1 (search_ignores_letter_case document
                  (ClauseExtraction.clauses
                     (ClauseExtraction.processedData (Some payload)))
                  "LIABILITY" "liability" "all" H)).
Defined.

Lemma questions_need_a_kept_upload_sample :
  JS.trim "What is this?" <> ""
  /\ snd (Chatbot.handleSendMessage 0
            (Chatbot.setInputValue "What is this?"
               (ChatSession.chat
                  (ChatSession.exchanges 0 offline
                     [ ChatSession.Upload
                         (Some {| ChatSession.file_name := "report.pdf" |})
                         (inl {| ChatSession.filename := "report.pdf";
                                 ChatSession.size_bytes := 1024 |});
                       ChatSession.Clear ]
                     (ChatSession.initial 0)))))
     = [Chatbot.SetTimeout 500 3].
Proof.
  assert (H : JS.trim "What is this?" <> "") by (vm_compute; discriminate).
  split; [exact H|].
  exact (proj1 (questions_need_a_kept_upload 0 offline
                  [ ChatSession.Upload
                      (Some {| ChatSession.file_name := "report.pdf" |})
                      (inl {| ChatSession.filename := "report.pdf";
                              ChatSession.size_bytes := 1024 |});
                    ChatSession.Clear ]
                  "What is this?" H) eq_refl).
Defined.

End SearchAndAskSamples.
